(** * Image_Analysis: metadata parser, signal pipeline and table merge

    A shallow embedding of [02_Data-Extraction/scripts/rme_parser.py] and
    [02_Data-Extraction/scripts/KeemPlot.py], with the properties of the
    natural-language specification stated and settled against it.

    - [RmeParser]: the line-oriented README parser ([rme_parser.parser]).
    - [Signal]: column maxima, normalisation, [np.linspace], [np.interp],
      thresholding and barcodes ([KeemPlot._process] and helpers), over
      binary64 numbers and over exact rationals.
    - [Frame]: the part of pandas that [KeemPlot.update_db] uses
      ([concat], [drop_duplicates], [reset_index]) and the merge itself.
    - [KeemPlotInit]: [KeemPlot.__init__] and [KeemPlot._gen_raw_arrays]
      over what they ask of the file system. *)

From Stdlib Require Import ZArith QArith Lia Lqa Bool Ascii String PrimFloat.
From stdpp Require Import base decidable option list strings.

Local Open Scope string_scope.
Local Open Scope list_scope.

(** ** Python string primitives used by the parser *)

Module PyStr.

(** Characters are Rocq [ascii] values, read as the code points 0..255. *)

(** [str.isspace] on those code points: TAB..CR, FS..US, space, NEL, NBSP. *)
Definition is_space (c : ascii) : bool :=
  let n := nat_of_ascii c in
  (((9 <=? n) && (n <=? 13)) || ((28 <=? n) && (n <=? 32))
   || (n =? 133) || (n =? 160))%nat.

Definition newline : ascii := ascii_of_nat 10.
Definition comma : ascii := ascii_of_nat 44.

Definition is_newline (c : ascii) : bool := Ascii.eqb c newline.

Fixpoint lstrip_by (p : ascii -> bool) (s : string) : string :=
  match s with
  | EmptyString => EmptyString
  | String c s' => if p c then lstrip_by p s' else s
  end.

Fixpoint rstrip_by (p : ascii -> bool) (s : string) : string :=
  match s with
  | EmptyString => EmptyString
  | String c s' =>
      match rstrip_by p s' with
      | EmptyString => if p c then EmptyString else String c EmptyString
      | r => String c r
      end
  end.

(** [s.strip(chars)]: drop the characters of the set at both ends. *)
Definition strip_by (p : ascii -> bool) (s : string) : string :=
  rstrip_by p (lstrip_by p s).

(** [s.strip()] *)
Definition strip (s : string) : string := strip_by is_space s.

(** [s.startswith(p)] *)
Definition startswith (s p : string) : bool := String.prefix p s.

(** [s.split(sep)] for a one-character separator: one field more than
    there are separators, empty fields kept. *)
Fixpoint split (sep : ascii) (s : string) : list string :=
  match s with
  | EmptyString => [EmptyString]
  | String c s' =>
      if Ascii.eqb c sep then EmptyString :: split sep s'
      else match split sep s' with
           | [] => [String c EmptyString]
           | f :: fs => String c f :: fs
           end
  end.

(** [f.readlines()] on the decoded text (newlines already translated to
    LF): every line keeps its terminator, a last unterminated line is
    kept, the empty text has no lines. *)
Fixpoint readlines (s : string) : list string :=
  match s with
  | EmptyString => []
  | String c s' =>
      if is_newline c then String c EmptyString :: readlines s'
      else match readlines s' with
           | [] => [String c EmptyString]
           | l :: ls => String c l :: ls
           end
  end.

(** The text whose lines are [ls], each terminated by LF. *)
Definition unlines (ls : list string) : string :=
  foldr (fun l acc => String.append l (String newline acc)) EmptyString ls.

End PyStr.

(** ** rme_parser.py *)

Module RmeParser.
Import PyStr.

Definition PARSE1 : string := "*--*".
Definition PARSE2 : string := "*-*".

(** The locals of [parser] together with the two attributes it writes. *)
Record pstate := mk_pstate {
  level : Z;
  first_line : bool;
  header : list string;
  common : list string;
  data : list (list string);
  infos : list (list (list string))
}.

Definition set_level (v : Z) (s : pstate) : pstate :=
  mk_pstate v (first_line s) (header s) (common s) (data s) (infos s).
Definition set_first_line (v : bool) (s : pstate) : pstate :=
  mk_pstate (level s) v (header s) (common s) (data s) (infos s).
Definition set_header (v : list string) (s : pstate) : pstate :=
  mk_pstate (level s) (first_line s) v (common s) (data s) (infos s).
Definition set_common (v : list string) (s : pstate) : pstate :=
  mk_pstate (level s) (first_line s) (header s) v (data s) (infos s).
Definition set_data (v : list (list string)) (s : pstate) : pstate :=
  mk_pstate (level s) (first_line s) (header s) (common s) v (infos s).
Definition set_infos (v : list (list (list string))) (s : pstate) : pstate :=
  mk_pstate (level s) (first_line s) (header s) (common s) (data s) v.

(** [__init__] and the head of [parser]. *)
Definition init : pstate := mk_pstate 0 false [] [] [] [].

(** [line.strip("\n")] *)
Definition chomp (raw : string) : string := strip_by is_newline raw.

Definition is_parse1 (raw : string) : bool :=
  startswith (strip (chomp raw)) PARSE1.
Definition is_parse2 (raw : string) : bool :=
  startswith (strip (chomp raw)) PARSE2.

(** [line.split(sep=",")] *)
Definition fields (raw : string) : list string := split comma (chomp raw).

(** The loop that renames a column called feed. *)
Definition rename_feed (h : list string) : list string :=
  map (fun w => if String.eqb w "feed" then "diet" else w) h.

(** The body of [if level == 1:] after its marker test. *)
Definition common_line (raw : string) (s : pstate) : pstate :=
  if first_line s
  then set_first_line false (set_header (fields raw) s)
  else set_common (fields raw) s.

(** The body of [if level == 2:] after its marker test. *)
Definition group_line (raw : string) (s : pstate) : pstate :=
  if first_line s
  then set_first_line false
         (set_header (rename_feed (header s ++ fields raw)) s)
  else set_data (data s ++ [common s ++ fields raw]) s.

(** The two trailing [if]s that open a block. *)
Definition open_blocks (raw : string) (s : pstate) : pstate :=
  let s1 := if is_parse1 raw
            then set_first_line true (set_level 1 s) else s in
  if is_parse2 raw then set_first_line true (set_level 2 s1) else s1.

(** One iteration of [for line in lines]; each [continue] ends it. *)
Definition step (s : pstate) (raw : string) : pstate :=
  if (level s =? 1)%Z && is_parse1 raw then set_level 0 s
  else
    let s1 := if (level s =? 1)%Z then common_line raw s else s in
    if (level s1 =? 2)%Z && is_parse2 raw
    then set_level 0 (set_data [] (set_infos (infos s1 ++ [data s1]) s1))
    else
      let s2 := if (level s1 =? 2)%Z then group_line raw s1 else s1 in
      open_blocks raw s2.

Definition run (s : pstate) (lines : list string) : pstate :=
  fold_left step lines s.

(** [parser(filepath)], on the text of the file. *)
Definition parser (text : string) : pstate := run init (readlines text).

(** What [rme_parser(filepath)] exposes: [header] and [infos], the latter
    as the sequence of groups that [np.array] wraps. *)
Definition rme_parser (text : string)
  : list string * list (list (list string)) :=
  let s := parser text in (header s, infos s).

(** *** Notions the properties are stated with *)


(** A line that carries neither marker. *)
Definition plain (raw : string) : bool :=
  negb (is_parse1 raw) && negb (is_parse2 raw).


(** Every row of every group has as many columns as the header. *)
Definition rows_match_header (h : list string)
    (gs : list (list (list string))) : Prop :=
  Forall (Forall (fun row => length row = length h)) gs.

(** Well-formed input in the specification's words: markers balanced,
    every COMMON data row with as many fields as the COMMON header line,
    every GROUP data row with as many fields as its group's header line.
    The scanner remembers the block it is in and the field count of the
    block's header line once it has seen it. *)
Inductive scan : Type :=
| Outside
| InCommon (w : option nat)
| InGroup (w : option nat).

Definition scan_row (w : option nat) (raw : string) : option (option nat) :=
  match w with
  | None => Some (Some (length (fields raw)))
  | Some n => if (length (fields raw) =? n)%nat then Some w else None
  end.

Definition scan_step (st : option scan) (raw : string) : option scan :=
  match st with
  | None => None
  | Some Outside =>
      if is_parse1 raw then Some (InCommon None)
      else if is_parse2 raw then Some (InGroup None)
      else Some Outside
  | Some (InCommon w) =>
      if is_parse1 raw then Some Outside
      else if is_parse2 raw then None
      else InCommon <$> scan_row w raw
  | Some (InGroup w) =>
      if is_parse2 raw then Some Outside
      else if is_parse1 raw then None
      else InGroup <$> scan_row w raw
  end.

Definition spec_well_formed (lines : list string) : bool :=
  match fold_left scan_step lines (Some Outside) with
  | Some Outside => true
  | _ => false
  end.

(** A stanza: lines outside any block, one COMMON block with its header
    line and at least one common row, lines outside again, one GROUP
    block with its header line and its rows. *)
Record stanza := mk_stanza {
  st_before : list string;
  st_copen : string;
  st_chead : string;
  st_crows : list string;
  st_clast : string;
  st_cclose : string;
  st_between : list string;
  st_gopen : string;
  st_ghead : string;
  st_grows : list string;
  st_gclose : string
}.

Definition stanza_lines (z : stanza) : list string :=
  st_before z
  ++ [st_copen z; st_chead z] ++ st_crows z ++ [st_clast z; st_cclose z]
  ++ st_between z
  ++ [st_gopen z; st_ghead z] ++ st_grows z ++ [st_gclose z].

Definition has_width (n : nat) (raw : string) : bool :=
  (length (fields raw) =? n)%nat.

Definition stanza_ok (z : stanza) : bool :=
  forallb plain (st_before z)
  && is_parse1 (st_copen z)
  && plain (st_chead z)
  && forallb plain (st_crows z)
  && plain (st_clast z)
  && is_parse1 (st_cclose z)
  && forallb plain (st_between z)
  && is_parse2 (st_gopen z)
  && plain (st_ghead z)
  && forallb plain (st_grows z)
  && is_parse2 (st_gclose z)
  && forallb (has_width (length (fields (st_chead z))))
       (st_crows z ++ [st_clast z])
  && forallb (has_width (length (fields (st_ghead z)))) (st_grows z).

(** Fields of the two header lines of a stanza together. *)
Definition stanza_width (z : stanza) : nat :=
  length (fields (st_chead z)) + length (fields (st_ghead z)).

Definition stanza_header (z : stanza) : list string :=
  rename_feed (fields (st_chead z) ++ fields (st_ghead z)).

Definition stanza_group (z : stanza) : list (list string) :=
  map (fun r => fields (st_clast z) ++ fields r) (st_grows z).

(** All stanzas have the width of the first. *)
Definition same_width (zs : list stanza) : bool :=
  match zs with
  | [] => true
  | z :: _ => forallb (fun z' => (stanza_width z' =? stanza_width z)%nat) zs
  end.

(** *** The texts of the examples *)

Definition scenario_text : string :=
  unlines ["*--*"; "id,sex"; "A,1"; "*--*";
           "*-*"; "feed,weight"; "x,10"; "y,20"; "*-*"].

Definition two_groups_text : string :=
  unlines ["*--*"; "id"; "A"; "*--*";
           "*-*"; "w"; "1"; "*-*";
           "*-*"; "h"; "2"; "*-*"].



Definition scenario_stanza : stanza :=
  mk_stanza [] ("*--*" +:+ String newline "") ("id,sex" +:+ String newline "")
    [] ("A,1" +:+ String newline "") ("*--*" +:+ String newline "") []
    ("*-*" +:+ String newline "") ("feed,weight" +:+ String newline "")
    ["x,10" +:+ String newline ""; "y,20" +:+ String newline ""]
    ("*-*" +:+ String newline "").

End RmeParser.

(** ** Exceptions

    The Python exceptions the modelled code can raise, and the error monad
    that threads them. *)

Inductive exn : Type :=
| IndexError
| KeyError
| ValueError
| ZeroDivisionError
| IOError.

Inductive result (A : Type) : Type :=
| Ok (a : A)
| Raise (e : exn).
Arguments Ok {A} a.
Arguments Raise {A} e.

Definition rbind {A B : Type} (r : result A) (k : A -> result B) : result B :=
  match r with
  | Ok a => k a
  | Raise e => Raise e
  end.

#[global] Instance result_bind : MBind result :=
  fun A B k r => rbind r k.
#[global] Instance result_ret : MRet result := fun A a => Ok a.

Fixpoint rmap {A B : Type} (f : A -> result B) (l : list A) : result (list B) :=
  match l with
  | [] => Ok []
  | a :: l' => b ← f a; bs ← rmap f l'; Ok (b :: bs)
  end.

(** [l[i]] for a Python list or the leading axis of a numpy array: negative
    indices count from the end. *)
Definition py_index {A : Type} (l : list A) (i : Z) : result A :=
  let n := Z.of_nat (length l) in
  let j := (if i <? 0 then i + n else i)%Z in
  if ((0 <=? j) && (j <? n))%Z
  then match l !! Z.to_nat j with
       | Some a => Ok a
       | None => Raise IndexError
       end
  else Raise IndexError.

(** ** KeemPlot.py: the signal pipeline *)

Module Signal.

(** The pipeline is written once over the arithmetic it runs on, and read
    at two instances: numpy's float64 (IEEE binary64, for evaluation) and
    exact rationals (rounding left out, the order of operations kept, for
    the general statements). Neither models NaN handling or overflow
    warnings; the values of the pipeline are finite. *)
Class Arith (T : Type) : Type := {
  of_Z : Z -> T;
  add : T -> T -> T;
  sub : T -> T -> T;
  mul : T -> T -> T;
  div : T -> T -> T;
  ltb : T -> T -> bool;
  eqb : T -> T -> bool
}.

Definition Qlt_bool (x y : Q) : bool := negb (Qle_bool y x).

#[global] Instance Q_arith : Arith Q := {|
  of_Z := inject_Z;
  add := Qplus;
  sub := Qminus;
  mul := Qmult;
  div := Qdiv;
  ltb := Qlt_bool;
  eqb := Qeq_bool
|}.

(** Integers as binary64 numbers; exact below 2^53. *)
Fixpoint float_of_pos (p : positive) : float :=
  match p with
  | xH => 1%float
  | xO p' => PrimFloat.mul 2 (float_of_pos p')
  | xI p' => PrimFloat.add (PrimFloat.mul 2 (float_of_pos p')) 1
  end.

Definition float_of_Z (z : Z) : float :=
  match z with
  | Z0 => 0%float
  | Zpos p => float_of_pos p
  | Zneg p => PrimFloat.opp (float_of_pos p)
  end.

#[global] Instance float_arith : Arith float := {|
  of_Z := float_of_Z;
  add := PrimFloat.add;
  sub := PrimFloat.sub;
  mul := PrimFloat.mul;
  div := PrimFloat.div;
  ltb := PrimFloat.ltb;
  eqb := PrimFloat.eqb
|}.

(** [image.max(axis=0)] of a two-dimensional array given by its rows. *)
Definition max_axis0 (image : list (list Z)) : result (list Z) :=
  match image with
  | [] => Raise ValueError
  | r :: rs => Ok (fold_left (zip_with Z.max) rs r)
  end.

Section pipeline.
Context {T : Type} `{Arith T}.

(** A count or an index as a number. *)
Definition of_nat (i : nat) : T := of_Z (Z.of_nat i).

(** [np.arange(n)] *)
Definition arange (n : nat) : list T := map of_nat (seq 0 n).

(** [np.linspace(start, stop, num=num)], end point included. *)
Definition linspace (start stop : T) (num : nat) : list T :=
  match num with
  | O => []
  | S O => [start]
  | S parts =>
      let step := div (sub stop start) (of_nat parts) in
      map (fun i => add (mul (of_nat i) step) start) (seq 0 parts) ++ [stop]
  end.

(** The search of [np.interp] from the knot [(x0, f0)] on, for
    [x0 <= x]: the last knot not above [x], its value when [x] sits on
    it, the chord to the next knot otherwise. *)
Fixpoint locate (x x0 f0 : T) (xp fp : list T) : T :=
  match xp, fp with
  | x1 :: xp', f1 :: fp' =>
      if ltb x x1
      then if eqb x0 x then f0
           else add (mul (div (sub f1 f0) (sub x1 x0)) (sub x x0)) f0
      else locate x x1 f1 xp' fp'
  | _, _ => f0
  end.

(** [np.interp(xs, xp, fp)] for increasing [xp]. *)
Definition interp (xs xp fp : list T) : result (list T) :=
  match xp, fp with
  | x0 :: xp', f0 :: fp' =>
      if negb (length xp' =? length fp')%nat then Raise ValueError
      else
        let xl := List.last xp' x0 in
        let fl := List.last fp' f0 in
        Ok (map (fun x =>
                   if ltb xl x then fl
                   else if ltb x x0 then f0
                   else locate x x0 f0 xp' fp') xs)
  | _, _ => Raise ValueError
  end.

(** [KeemPlot._interp1d] *)
Definition _interp1d (array : list T) (new_len : nat) : result (list T) :=
  let la := length array in
  interp (linspace (of_Z 0) (sub (of_nat la) (of_Z 1)) new_len)
    (arange la) array.

(** [len(arr) // 20 if len(arr) >= 20 else 1] stacked copies. *)
Definition create_barcode (arr : list T) : list (list T) :=
  let height := if (20 <=? length arr)%nat then (length arr / 20)%nat
                else 1%nat in
  repeat arr height.

(** The attributes [__init__] sets for [_process]. *)
Record params := mk_params {
  _max_value : T;
  _final_len : nat;
  _threshold : T
}.

(** [__init__]: [self._threshold = threshold / max_value]. *)
Definition init_params (max_value threshold : T) (final_len : nat)
  : result params :=
  if eqb max_value (of_Z 0) then Raise ZeroDivisionError
  else Ok (mk_params max_value final_len (div threshold max_value)).

(** [arr_int[arr_int < self._threshold] = 0] *)
Definition threshold_out (t : T) (arr : list T) : list T :=
  map (fun v => if ltb v t then of_Z 0 else v) arr.

Record processed := mk_processed {
  p_ni : list T;
  p_flat : list T;
  p_ut : list T;
  p_barcode : list (list T)
}.

(** One iteration of the loop of [_process]. *)
Definition process_image (self : params) (image : list (list Z))
  : result processed :=
  cols ← max_axis0 image;
  let arr := map (fun v => div (of_Z v) (_max_value self)) cols in
  arr_int ← _interp1d arr (_final_len self);
  let flat := threshold_out (_threshold self) arr_int in
  Ok (mk_processed arr flat arr_int (create_barcode flat)).

(** [KeemPlot._process]: [flatdata_ni, flatdata, flatdata_ut, barcodes]. *)
Definition _process (self : params) (Raw_data : list (list (list Z)))
  : result (list (list T) * list (list T) * list (list T)
            * list (list (list T))) :=
  ps ← rmap (process_image self) Raw_data;
  Ok (map p_ni ps, map p_flat ps, map p_ut ps, map p_barcode ps).

End pipeline.

Arguments params T : clear implicits.
Arguments processed T : clear implicits.

(** Counts and indices as rationals. *)
Definition nat_Q (i : nat) : Q := inject_Z (Z.of_nat i).

(** Equality of vectors up to the representation of fractions. *)
Definition vec_eq (u v : list Q) : Prop := Forall2 Qeq u v.

(** The example: three columns, divisor 65535, threshold 39321 (relative
    threshold 0.6), target length 5. *)
Definition scenario_image : list (list Z) := [[0; 32767; 65535]%Z].

Definition scenario_params : params Q :=
  mk_params 65535%Q 5 (39321 / 65535)%Q.

Definition scenario_params64 : params float :=
  mk_params 65535%float 5 (PrimFloat.div 39321 65535).

End Signal.

(** ** KeemPlot.py: group selection in [__init__] *)

Module KeemPlot.

(** [self.dbdata = self.metadata.infos[group_number-1]] *)
Definition dbdata {G : Type} (infos : list G) (group_number : Z) : result G :=
  py_index infos (group_number - 1).

End KeemPlot.

(** ** KeemPlot.py: the persisted table and [update_db] *)

Module Frame.

Section frame.
Context {V : Type} `{EqDecision V}.

(** A cell is a value or missing (NaN). *)
Definition cell : Type := option V.

(** A pandas DataFrame: column labels, row labels and the rows, each
    row holding one cell per column. Column labels are taken to be
    distinct; pandas' treatment of repeated labels is not modelled (a
    lookup here reads the first of them). *)
Record DataFrame := mk_frame {
  columns : list string;
  index : list nat;
  values : list (list cell)
}.

(** The cell of [row] under column [c]; missing when there is none. *)
Fixpoint get_cell (cols : list string) (row : list cell) (c : string)
  : cell :=
  match cols, row with
  | c' :: cols', x :: row' =>
      if decide (c = c') then x else get_cell cols' row' c
  | _, _ => None
  end.

(** Re-express a row over the columns [target]. *)
Definition reindex (cols target : list string) (row : list cell)
  : list cell :=
  get_cell cols row <$> target.

(** The outer join of two column indexes, in order of appearance. *)
Definition union_columns (a b : list string) : list string :=
  a ++ filter (fun c => c ∉ a) b.

(** [pd.concat([a, b], axis=0, ignore_index=True, join="outer")] *)
Definition concat (a b : DataFrame) : DataFrame :=
  let cols := union_columns (columns a) (columns b) in
  let vals := (reindex (columns a) cols <$> values a)
              ++ (reindex (columns b) cols <$> values b) in
  mk_frame cols (seq 0 (length vals)) vals.

(** [Series.duplicated(keep="last")]: true at every position whose key
    occurs again further on; missing keys count as equal. *)
Fixpoint duplicated_last (keys : list cell) : list bool :=
  match keys with
  | [] => []
  | k :: ks => bool_decide (k ∈ ks) :: duplicated_last ks
  end.

(** Boolean indexing [l[mask]]. *)
Fixpoint compress {A : Type} (mask : list bool) (l : list A) : list A :=
  match mask, l with
  | m :: ms, x :: xs => if m then x :: compress ms xs else compress ms xs
  | _, _ => []
  end.

(** The key column of a frame. *)
Definition key_column (c : string) (df : DataFrame) : list cell :=
  (fun row => get_cell (columns df) row c) <$> values df.

(** [df.drop_duplicates(subset=[c], keep="last")] *)
Definition drop_duplicates (c : string) (df : DataFrame)
  : result DataFrame :=
  if decide (c ∈ columns df)
  then
    let keep := negb <$> duplicated_last (key_column c df) in
    Ok (mk_frame (columns df) (compress keep (index df))
          (compress keep (values df)))
  else Raise KeyError.

(** [df.reset_index(drop=True, inplace=True)] *)
Definition reset_index (df : DataFrame) : DataFrame :=
  mk_frame (columns df) (seq 0 (length (values df))) (values df).

(** Lines 157 to 159 of [update_db]: the table written back. *)
Definition merge (old df : DataFrame) : result DataFrame :=
  new ← drop_duplicates "ID" (concat old df);
  Ok (reset_index new).

(** [KeemPlot.update_db(path)] with [self.df = df]: the file at [path]
    before ([None]: it cannot be read) and after, with the exception
    raised if any. [to_pickle] is reached only when nothing raised. *)
Definition update_db (df : DataFrame) (disk : option DataFrame)
  : option exn * option DataFrame :=
  match disk with
  | None => (Some IOError, disk)
  | Some old =>
      match merge old df with
      | Ok new => (None, Some new)
      | Raise e => (Some e, disk)
      end
  end.

(** The identifiers of a frame, row by row. *)
Definition ids (df : DataFrame) : list cell := key_column "ID" df.

(** The rows of the concatenation, before duplicates are dropped. *)
Definition stacked (old df : DataFrame) : list (list cell) :=
  let cols := union_columns (columns old) (columns df) in
  (reindex (columns old) cols <$> values old)
  ++ (reindex (columns df) cols <$> values df).

(** The identifier of a row laid out over [cols]. *)
Definition id_of (cols : list string) (row : list cell) : cell :=
  get_cell cols row "ID".

(** The rows that carry the identifier [k]. *)
Definition rows_with (cols : list string) (k : cell)
    (rows : list (list cell)) : list (list cell) :=
  filter (fun row => id_of cols row = k) rows.

(** The elements of [l] whose key does not occur again further on. *)
Fixpoint keep_last {A : Type} (key : A -> cell) (l : list A) : list A :=
  match l with
  | [] => []
  | x :: xs =>
      if decide (key x ∈ key <$> xs) then keep_last key xs
      else x :: keep_last key xs
  end.

(** The rows of the existing table that survive a merge with [df]:
    their identifier occurs neither further on in the table nor in
    [df]. *)
Definition surviving (old df : DataFrame) : list (list cell) :=
  filter (fun row => id_of (columns old) row ∉ ids df)
    (keep_last (id_of (columns old)) (values old)).

End frame.

Arguments DataFrame V : clear implicits.

(** *** The tables of the examples *)

Definition old_table : DataFrame string :=
  mk_frame ["ID"; "v"] [0; 1]%nat
    [[Some "1"; Some "v_old"]; [Some "3"; Some "z"]].

Definition new_table : DataFrame string :=
  mk_frame ["ID"; "v"] [0; 1]%nat
    [[Some "1"; Some "v_new"]; [Some "2"; Some "q"]].

(** A new table that has no identifier column. *)
Definition anonymous_table : DataFrame string :=
  mk_frame ["w"] [0; 1]%nat [[Some "a"]; [Some "b"]].

(** An existing table in which an identifier occurs twice. *)
Definition repeated_table : DataFrame string :=
  mk_frame ["ID"; "v"] [0; 1]%nat
    [[Some "1"; Some "first"]; [Some "1"; Some "second"]].

Definition other_table : DataFrame string :=
  mk_frame ["ID"; "v"] [0]%nat [[Some "2"; Some "q"]].

End Frame.

(** ** Further notions for the parser *)

Module ParserNotions.
Import PyStr RmeParser.

(** Every character of the string is in the set. *)
Fixpoint all_chars (p : ascii -> bool) (s : string) : bool :=
  match s with
  | EmptyString => true
  | String c s' => p c && all_chars p s'
  end.



End ParserNotions.

(** ** Further notions for the signal pipeline *)

Module SignalNotions.

(** An image that gives no column to work on: no rows, or a row without
    pixels. *)
Definition degenerate (image : list (list Z)) : Prop :=
  image = [] \/ [] ∈ image.

(** All numbers of a vector lie between two bounds. *)
Definition within (lo hi : Q) (v : list Q) : Prop :=
  Forall (fun y => (lo <= y)%Q /\ (y <= hi)%Q) v.

(** All pixels of an image lie between zero and a bound. *)
Definition pixels_within (hi : Q) (image : list (list Z)) : Prop :=
  Forall (Forall (fun z => (0 <= z)%Z /\ (inject_Z z <= hi)%Q)) image.

End SignalNotions.

(** ** Further notions for tables *)

Module FrameNotions.
Import Frame.

Section notions.
Context {V : Type} `{EqDecision V}.


End notions.

End FrameNotions.

(** ** KeemPlot.py: [__init__] and [_gen_raw_arrays] *)

Module KeemPlotInit.
Import PyStr RmeParser Signal.

(** [s.endswith(p)] *)
Definition endswith (s p : string) : bool :=
  let n := String.length s in
  let m := String.length p in
  (m <=? n)%nat && String.eqb (substring (n - m) m s) p.

(** [s[-1]], when there is one. *)
Fixpoint last_char (s : string) : option ascii :=
  match s with
  | EmptyString => None
  | String c s' =>
      match s' with
      | EmptyString => Some c
      | String _ _ => last_char s'
      end
  end.

(** The head of [__init__]: [if path[-1] != "/": path += "/"]. The empty
    path has no last character. *)
Definition with_slash (path : string) : result string :=
  match last_char path with
  | None => Raise IndexError
  | Some c => if Ascii.eqb c "/" then Ok path else Ok (path +:+ "/")
  end.

(** The test of the comprehension in [_gen_raw_arrays]. *)
Definition is_image_name (i : string) : bool :=
  negb (startswith i ".") && negb (endswith i ".txt").

(** [image_names]: the entries kept, in the order of the listing. *)
Definition image_names (listing : list string) : list string :=
  List.filter is_image_name listing.

(** What the code asks of the file system: the text of a file, the
    entries of a directory (in the order [os.listdir] gives them) and the
    decoded image of a file, an array of rank three given by its frames,
    each frame by its rows. Each may raise. *)
Record files := mk_files {
  read_text : string -> result string;
  listdir : string -> result (list string);
  imread : string -> result (list (list (list Z)))
}.

(** [a[0,:,:]] on an array of rank three. *)
Definition first_frame (a : list (list (list Z))) : result (list (list Z)) :=
  match a with
  | frame :: _ => Ok frame
  | [] => Raise IndexError
  end.

(** [KeemPlot._gen_raw_arrays] *)
Definition _gen_raw_arrays (fs : files) (path : string)
  : result (list (list (list Z))) :=
  names ← listdir fs path;
  rmap (fun name => a ← imread fs (path +:+ name); first_frame a)
    (image_names names).

(** The attributes of a KeemPlot object ([metadata] apart, of which
    [header] and [dbdata] are the parts used). *)
Record keemplot (T : Type) := mk_keemplot {
  kp_header : list string;
  kp_dbdata : list (list string);
  kp_params : params T;
  Raw_Arrays : list (list (list Z));
  flatdata_ni : list (list T);
  flatdata : list (list T);
  flatdata_ut : list (list T);
  barcodes : list (list (list T))
}.
Arguments mk_keemplot {T}.
Arguments kp_header {T}.
Arguments kp_dbdata {T}.
Arguments kp_params {T}.
Arguments Raw_Arrays {T}.
Arguments flatdata_ni {T}.
Arguments flatdata {T}.
Arguments flatdata_ut {T}.
Arguments barcodes {T}.

(** [KeemPlot.__init__], statement by statement. *)
Definition __init__ {T : Type} `{Arith T} (fs : files) (path : string)
    (group_number : Z) (max_value threshold : T) (final_len : nat)
  : result (keemplot T) :=
  path ← with_slash path;
  text ← read_text fs (path +:+ "README.txt");
  let metadata := rme_parser text in
  dbdata ← KeemPlot.dbdata (snd metadata) group_number;
  self ← init_params max_value threshold final_len;
  raw ← _gen_raw_arrays fs path;
  out ← _process self raw;
  let '(ni, flat, ut, bar) := out in
  Ok (mk_keemplot (fst metadata) dbdata self raw ni flat ut bar).

(** A directory for the examples: the scenario text as README, one image
    and two entries that are not images. *)
Definition example_files : files :=
  mk_files
    (fun p => if String.eqb p "data/README.txt" then Ok scenario_text
              else Raise IOError)
    (fun p => if String.eqb p "data/"
              then Ok [".hidden"; "README.txt"; "worm1.tif"]
              else Raise IOError)
    (fun p => if String.eqb p "data/worm1.tif" then Ok [scenario_image]
              else Raise IOError).

End KeemPlotInit.

(** * Properties of the metadata parser *)

Module ParserProps.
Import PyStr RmeParser.

(** The two markers exclude each other: the third character of a COMMON
    marker is a dash, that of a GROUP marker a star. *)
Lemma parse1_not_parse2 raw : is_parse1 raw = true -> is_parse2 raw = false.
Proof.
  unfold is_parse1, is_parse2, startswith, PARSE1, PARSE2.
  destruct (strip (chomp raw)) as [|c1 [|c2 [|c3 t]]]; cbn [String.prefix];
    try discriminate;
    repeat match goal with
      | |- context [ascii_dec ?a ?b] =>
          destruct (ascii_dec a b); subst; try congruence
      end.
Qed.

Lemma parse2_not_parse1 raw : is_parse2 raw = true -> is_parse1 raw = false.
Proof.
  intros H2. destruct (is_parse1 raw) eqn:H1; [|reflexivity].
  apply parse1_not_parse2 in H1. congruence.
Qed.

Lemma plain_spec raw :
  plain raw = true <-> is_parse1 raw = false /\ is_parse2 raw = false.
Proof.
  unfold plain. rewrite andb_true_iff, !negb_true_iff. reflexivity.
Qed.

Lemma run_app s l1 l2 : run s (l1 ++ l2) = run (run s l1) l2.
Proof. apply fold_left_app. Qed.

Lemma run_cons s raw l : run s (raw :: l) = run (step s raw) l.
Proof. reflexivity. Qed.

(** *** What one line does, state by state *)

Lemma step_outside_plain s raw :
  level s <> 1%Z -> level s <> 2%Z -> plain raw = true -> step s raw = s.
Proof.
  intros H1 H2 [P1 P2]%plain_spec. unfold step, open_blocks.
  apply Z.eqb_neq in H1, H2. rewrite H1, H2, P1, P2. reflexivity.
Qed.

Lemma step_open_common s raw :
  level s <> 1%Z -> level s <> 2%Z -> is_parse1 raw = true ->
  step s raw = set_first_line true (set_level 1 s).
Proof.
  intros H1 H2 P1. pose proof (parse1_not_parse2 _ P1) as P2.
  unfold step, open_blocks. apply Z.eqb_neq in H1, H2.
  rewrite H1, H2, P1, P2. reflexivity.
Qed.

Lemma step_open_group s raw :
  level s <> 1%Z -> level s <> 2%Z -> is_parse2 raw = true ->
  step s raw = set_first_line true (set_level 2 s).
Proof.
  intros H1 H2 P2. pose proof (parse2_not_parse1 _ P2) as P1.
  unfold step, open_blocks. apply Z.eqb_neq in H1, H2.
  rewrite H1, H2, P1, P2. reflexivity.
Qed.

Lemma step_close_common s raw :
  level s = 1%Z -> is_parse1 raw = true -> step s raw = set_level 0 s.
Proof. intros H1 P1. unfold step. rewrite H1, P1. reflexivity. Qed.

Lemma level_common_line raw s : level (common_line raw s) = level s.
Proof. unfold common_line. destruct (first_line s); reflexivity. Qed.

Lemma step_close_group s raw :
  level s = 2%Z -> is_parse2 raw = true ->
  step s raw = set_level 0 (set_data [] (set_infos (infos s ++ [data s]) s)).
Proof.
  intros H2 P2. unfold step. rewrite H2. simpl. rewrite H2, P2. reflexivity.
Qed.

Lemma step_common_plain s raw :
  level s = 1%Z -> plain raw = true -> step s raw = common_line raw s.
Proof.
  intros H1 [P1 P2]%plain_spec. unfold step, open_blocks.
  rewrite H1, P1, P2. simpl. rewrite level_common_line, H1. reflexivity.
Qed.

Lemma step_group_plain s raw :
  level s = 2%Z -> plain raw = true -> step s raw = group_line raw s.
Proof.
  intros H2 [P1 P2]%plain_spec. unfold step, open_blocks.
  rewrite H2. simpl. rewrite H2, P1, P2. reflexivity.
Qed.

(** A marker of the other kind inside a block: the line is dispatched as
    content of the open block, and then opens a block of its own kind. *)
Lemma step_group_marker_in_common s raw :
  level s = 1%Z -> is_parse2 raw = true ->
  step s raw = set_first_line true (set_level 2 (common_line raw s)).
Proof.
  intros H1 P2. pose proof (parse2_not_parse1 _ P2) as P1.
  unfold step, open_blocks.
  rewrite H1, P1, P2. simpl. rewrite level_common_line, H1. reflexivity.
Qed.

Lemma step_common_marker_in_group s raw :
  level s = 2%Z -> is_parse1 raw = true ->
  step s raw = set_first_line true (set_level 1 (group_line raw s)).
Proof.
  intros H2 P1. pose proof (parse1_not_parse2 _ P1) as P2.
  unfold step, open_blocks. rewrite H2. simpl.
  rewrite H2, P1, P2. reflexivity.
Qed.

(** *** Blocks *)

Lemma run_plain_outside ls s :
  level s = 0%Z -> forallb plain ls = true -> run s ls = s.
Proof.
  intros L. induction ls as [|raw ls IH]; simpl; [reflexivity|].
  intros [P Q]%andb_true_iff.
  rewrite step_outside_plain by (rewrite ?L; done). auto.
Qed.

Lemma run_common_rows rows r s :
  level s = 1%Z -> first_line s = false ->
  forallb plain rows = true -> plain r = true ->
  run s (rows ++ [r]) = set_common (fields r) s.
Proof.
  revert s. induction rows as [|a rows IH]; intros s L F Hrows Hr; simpl.
  - rewrite step_common_plain by assumption.
    unfold common_line. rewrite F. reflexivity.
  - apply andb_true_iff in Hrows as [Ha Hrows].
    rewrite step_common_plain by assumption.
    unfold common_line. rewrite F.
    rewrite (IH (set_common (fields a) s)) by assumption. reflexivity.
Qed.

Lemma run_group_rows rows s :
  level s = 2%Z -> first_line s = false -> forallb plain rows = true ->
  run s rows
  = set_data (data s ++ map (fun r => common s ++ fields r) rows) s.
Proof.
  revert s. induction rows as [|a rows IH]; intros s L F Hrows; simpl.
  - rewrite app_nil_r. destruct s; reflexivity.
  - apply andb_true_iff in Hrows as [Ha Hrows].
    rewrite step_group_plain by assumption.
    unfold group_line. rewrite F.
    rewrite (IH (set_data (data s ++ [common s ++ fields a]) s))
      by assumption.
    simpl. rewrite <- app_assoc. reflexivity.
Qed.

Lemma stanza_lines_grouped z :
  stanza_lines z
  = st_before z
    ++ st_copen z :: st_chead z
    :: (st_crows z ++ [st_clast z])
    ++ st_cclose z
    :: st_between z
    ++ st_gopen z :: st_ghead z :: st_grows z ++ [st_gclose z].
Proof. unfold stanza_lines. simpl. rewrite <- app_assoc. reflexivity. Qed.

Ltac split_ok H :=
  repeat match type of H with
    | (_ && _)%bool = true =>
        let H' := fresh "Hok" in apply andb_true_iff in H as [H H']
    end.

(** The parse of a stanza, started outside any block with no rows
    pending. *)
Lemma run_stanza z s :
  level s = 0%Z -> data s = [] -> stanza_ok z = true ->
  run s (stanza_lines z)
  = mk_pstate 0 false (stanza_header z) (fields (st_clast z)) []
      (infos s ++ [stanza_group z]).
Proof.
  intros L D Hok. unfold stanza_ok in Hok. split_ok Hok.
  destruct s as [lv fl h c d i]. simpl in L, D. subst lv d.
  rewrite stanza_lines_grouped.
  rewrite run_app, (run_plain_outside (st_before z)) by done.
  rewrite !run_cons.
  rewrite (step_open_common _ (st_copen z)) by done.
  rewrite (step_common_plain _ (st_chead z)) by done.
  rewrite run_app, (run_common_rows (st_crows z) (st_clast z)) by done.
  rewrite run_cons, (step_close_common _ (st_cclose z)) by done.
  rewrite run_app, (run_plain_outside (st_between z)) by done.
  rewrite !run_cons.
  rewrite (step_open_group _ (st_gopen z)) by done.
  rewrite (step_group_plain _ (st_ghead z)) by done.
  rewrite run_app, (run_group_rows (st_grows z)) by done.
  simpl. rewrite (step_close_group _ (st_gclose z)) by done.
  reflexivity.
Qed.

Lemma run_stanzas zs s :
  level s = 0%Z -> data s = [] -> forallb stanza_ok zs = true ->
  level (run s (flat_map stanza_lines zs)) = 0%Z
  /\ data (run s (flat_map stanza_lines zs)) = []
  /\ infos (run s (flat_map stanza_lines zs))
     = infos s ++ map stanza_group zs
  /\ header (run s (flat_map stanza_lines zs))
     = from_option stanza_header (header s) (last zs).
Proof.
  revert s. induction zs as [|z zs IH]; intros s L D Hok; simpl.
  - rewrite app_nil_r. auto.
  - apply andb_true_iff in Hok as [Hz Hzs].
    rewrite run_app, (run_stanza z s L D Hz).
    edestruct (IH (mk_pstate 0 false (stanza_header z)
                     (fields (st_clast z)) [] (infos s ++ [stanza_group z])))
      as (L' & D' & I' & H'); [reflexivity | reflexivity | exact Hzs |].
    rewrite L', D', I', H'. simpl. rewrite <- app_assoc.
    repeat split. destruct zs as [|z' zs]; [reflexivity|].
    simpl. destruct (last (z' :: zs)) eqn:E; [reflexivity|].
    apply last_None in E. discriminate.
Qed.

Lemma length_rename_feed h : length (rename_feed h) = length h.
Proof. apply length_map. Qed.

Lemma stanza_header_width z : length (stanza_header z) = stanza_width z.
Proof.
  unfold stanza_header, stanza_width.
  rewrite length_rename_feed, length_app. reflexivity.
Qed.

(** Every row of a stanza's group is as wide as the stanza's two header
    lines together. *)
Lemma stanza_group_width z :
  stanza_ok z = true ->
  Forall (fun row => length row = stanza_width z) (stanza_group z).
Proof.
  intros Hok. unfold stanza_ok in Hok. split_ok Hok.
  rewrite forallb_app in Hok1. apply andb_true_iff in Hok1 as [_ Hl].
  simpl in Hl. rewrite andb_true_r in Hl. apply Nat.eqb_eq in Hl.
  unfold stanza_group, stanza_width. apply Forall_fmap, Forall_forall.
  intros r Hr. simpl. rewrite length_app, Hl. f_equal.
  rewrite forallb_forall in Hok0.
  apply Nat.eqb_eq, Hok0, list_elem_of_In, Hr.
Qed.

Lemma same_width_spec zs z z' :
  same_width zs = true -> z ∈ zs -> z' ∈ zs ->
  stanza_width z = stanza_width z'.
Proof.
  destruct zs as [|z0 zs0]; [intros _ H; inversion H|].
  unfold same_width. set (zs := z0 :: zs0). rewrite forallb_forall.
  intros H Hz Hz'. apply list_elem_of_In in Hz, Hz'.
  apply H, Nat.eqb_eq in Hz, Hz'. congruence.
Qed.

(** *** Stanzas are well-formed input *)

Lemma scan_plain_outside ls :
  forallb plain ls = true ->
  fold_left scan_step ls (Some Outside) = Some Outside.
Proof.
  induction ls as [|raw ls IH]; simpl; [reflexivity|].
  intros [[P1 P2]%plain_spec Q]%andb_true_iff. rewrite P1, P2. auto.
Qed.

Lemma scan_common_rows n rows :
  forallb plain rows = true -> forallb (has_width n) rows = true ->
  fold_left scan_step rows (Some (InCommon (Some n)))
  = Some (InCommon (Some n)).
Proof.
  induction rows as [|raw rows IH]; simpl; [reflexivity|].
  intros [[P1 P2]%plain_spec Q]%andb_true_iff [W Ws]%andb_true_iff.
  unfold has_width in W. rewrite P1, P2. simpl. rewrite W. simpl. auto.
Qed.

Lemma scan_group_rows n rows :
  forallb plain rows = true -> forallb (has_width n) rows = true ->
  fold_left scan_step rows (Some (InGroup (Some n)))
  = Some (InGroup (Some n)).
Proof.
  induction rows as [|raw rows IH]; simpl; [reflexivity|].
  intros [[P1 P2]%plain_spec Q]%andb_true_iff [W Ws]%andb_true_iff.
  unfold has_width in W. rewrite P1, P2. simpl. rewrite W. simpl. auto.
Qed.

Lemma scan_stanza z :
  stanza_ok z = true ->
  fold_left scan_step (stanza_lines z) (Some Outside) = Some Outside.
Proof.
  intros Hok. unfold stanza_ok in Hok. split_ok Hok.
  rewrite stanza_lines_grouped.
  rewrite fold_left_app, (scan_plain_outside (st_before z)) by done.
  apply plain_spec in Hok10 as [C1 C2], Hok4 as [G1 G2].
  cbn [fold_left scan_step]. rewrite Hok11.
  cbn [scan_step]. rewrite C1, C2.
  cbn [scan_row fmap option_fmap option_map].
  rewrite fold_left_app, scan_common_rows
    by (done || (rewrite forallb_app, Hok9; simpl; rewrite Hok8; done)).
  cbn [fold_left scan_step]. rewrite Hok7.
  rewrite fold_left_app, (scan_plain_outside (st_between z)) by done.
  cbn [fold_left scan_step].
  rewrite (parse2_not_parse1 _ Hok5), Hok5.
  cbn [scan_step]. rewrite G2, G1.
  cbn [scan_row fmap option_fmap option_map].
  rewrite fold_left_app, scan_group_rows by done.
  cbn [fold_left scan_step]. rewrite Hok2. reflexivity.
Qed.

Lemma stanzas_well_formed zs post :
  forallb stanza_ok zs = true -> forallb plain post = true ->
  spec_well_formed (flat_map stanza_lines zs ++ post) = true.
Proof.
  intros Hzs Hpost. unfold spec_well_formed.
  rewrite fold_left_app.
  assert (fold_left scan_step (flat_map stanza_lines zs) (Some Outside)
          = Some Outside) as ->.
  { induction zs as [|z zs IH]; simpl; [reflexivity|].
    apply andb_true_iff in Hzs as [Hz Hzs].
    rewrite fold_left_app, scan_stanza by assumption. auto. }
  rewrite scan_plain_outside by assumption. reflexivity.
Qed.

(** *** C1 *)




(** *** C2 *)

(** C2: the scenario text parses to the header id, sex, diet, weight and
    to one group with the rows A,1,x,10 and A,1,y,20. *)
Theorem scenario_parse :
  rme_parser scenario_text
  = (["id"; "sex"; "diet"; "weight"],
     [[["A"; "1"; "x"; "10"]; ["A"; "1"; "y"; "20"]]]).
Proof. vm_compute. reflexivity. Qed.

(** *** C7 *)

(** C7, as stated, fails: [two_groups_text] is well-formed (one COMMON
    block, then two GROUP blocks, all rows as wide as their header
    lines), the header collects the header lines of both groups and has
    three names, and the rows have two columns. *)
Lemma header_longer_than_rows :
  spec_well_formed (readlines two_groups_text) = true
  /\ rme_parser two_groups_text
     = (["id"; "w"; "h"], [[["A"; "1"]]; [["A"; "2"]]])
  /\ ~ rows_match_header (fst (rme_parser two_groups_text))
         (snd (rme_parser two_groups_text)).
Proof.
  split; [vm_compute; reflexivity|]. split; [vm_compute; reflexivity|].
  intros H. unfold rows_match_header in H. vm_compute in H.
  apply Forall_cons_1 in H as [H _].
  apply Forall_cons_1 in H as [H _]. discriminate.
Qed.

(** C7, amended: let the input be a sequence of stanzas, each one COMMON
    block (header line and at least one common row, every row with as
    many fields as the header line) followed by one GROUP block (header
    line and rows with as many fields as it), with unmarked lines
    anywhere outside the blocks, and let the two header lines of every
    stanza have the same number of fields in total. Such an input is
    well-formed, it parses to one group per stanza, and the length of the
    parsed header equals the number of columns of every row of every
    group. *)
Theorem header_width_of_stanzas
    (text : string) (zs : list stanza) (post : list string) :
  readlines text = flat_map stanza_lines zs ++ post ->
  forallb stanza_ok zs = true ->
  forallb plain post = true ->
  same_width zs = true ->
  spec_well_formed (readlines text) = true
  /\ length (snd (rme_parser text)) = length zs
  /\ rows_match_header (fst (rme_parser text)) (snd (rme_parser text)).
Proof.
  intros Hlines Hzs Hpost Hsame.
  split; [rewrite Hlines; apply stanzas_well_formed; assumption|].
  unfold rme_parser, parser. simpl. rewrite Hlines, run_app.
  destruct (run_stanzas zs init eq_refl eq_refl Hzs) as (L & D & I & H).
  rewrite run_plain_outside by assumption.
  rewrite I, H. simpl. rewrite length_map. split; [reflexivity|].
  unfold rows_match_header. apply Forall_fmap, Forall_forall.
  intros z Hz. simpl.
  destruct (last zs) as [zl|] eqn:E;
    [|apply last_None in E; subst zs; inversion Hz].
  simpl. rewrite stanza_header_width.
  assert (zl ∈ zs) as Hzl.
  { apply last_Some in E as [l' ->]. apply elem_of_app. right. left. }
  rewrite <- (same_width_spec zs z zl Hsame Hz Hzl).
  apply stanza_group_width.
  rewrite forallb_forall in Hzs. apply Hzs, list_elem_of_In, Hz.
Qed.

Lemma header_width_of_stanzas_witness :
  spec_well_formed (readlines scenario_text) = true
  /\ length (snd (rme_parser scenario_text)) = 1%nat
  /\ rows_match_header (fst (rme_parser scenario_text))
       (snd (rme_parser scenario_text)).
Proof.
  apply (header_width_of_stanzas scenario_text [scenario_stanza] []);
    vm_compute; reflexivity.
Defined.

End ParserProps.

(** * Properties of the signal pipeline *)

Module SignalProps.
Import Signal.

Lemma Qlt_bool_iff x y : Qlt_bool x y = true <-> (x < y)%Q.
Proof.
  unfold Qlt_bool. rewrite negb_true_iff, <- not_true_iff_false, Qle_bool_iff.
  split; [apply Qnot_le_lt | apply Qlt_not_le].
Qed.

Lemma Qlt_bool_false x y : (y <= x)%Q -> Qlt_bool x y = false.
Proof.
  intros H. apply not_true_iff_false. rewrite Qlt_bool_iff.
  apply Qle_not_lt, H.
Qed.

Lemma map_fmap {A B : Type} (f : A -> B) (l : list A) : map f l = f <$> l.
Proof. reflexivity. Qed.

(** *** Lengths, whatever the arithmetic *)

Section lengths.
Context {T : Type} `{Arith T}.

Lemma length_linspace (a b : T) n : length (linspace a b n) = n.
Proof.
  destruct n as [|[|n]]; [reflexivity | reflexivity |].
  unfold linspace. rewrite length_app, length_map, length_seq. simpl. lia.
Qed.

Lemma length_arange n : length (arange (T:=T) n) = n.
Proof. unfold arange. rewrite length_map. apply length_seq. Qed.

Lemma length_interp1d (v : list T) (F : nat) :
  (1 <= length v)%nat -> exists r, _interp1d v F = Ok r /\ length r = F.
Proof.
  intros Hv. destruct v as [|f0 fp']; [simpl in Hv; lia|].
  unfold _interp1d, arange. cbn [length seq map interp].
  rewrite length_map, length_seq, Nat.eqb_refl. cbn [negb].
  eexists. split; [reflexivity|].
  rewrite length_map. apply length_linspace.
Qed.

End lengths.

(** *** Knots, in exact arithmetic *)

Lemma arange_succ n :
  arange (T:=Q) (S n) = nat_Q 0 :: map nat_Q (seq 1 n).
Proof. reflexivity. Qed.

Lemma nat_Q_le i j : (i <= j)%nat -> (nat_Q i <= nat_Q j)%Q.
Proof. intros H. unfold nat_Q. rewrite <- Zle_Qle. lia. Qed.

Lemma nat_Q_lt i j : (i < j)%nat -> (nat_Q i < nat_Q j)%Q.
Proof. intros H. unfold nat_Q. rewrite <- Zlt_Qlt. lia. Qed.

(** On knots at consecutive integers, [locate] at a knot returns the
    value stored there. *)
Lemma locate_at_knot (fp' : list Q) : forall j f0 x i,
  (x == nat_Q (j + i))%Q -> (i <= length fp')%nat ->
  (f0 :: fp') !! i
  = Some (locate x (nat_Q j) f0 (map nat_Q (seq (S j) (length fp'))) fp').
Proof.
  induction fp' as [|f1 fp' IH]; intros j f0 x i Hx Hi;
    cbn [length seq map locate ltb eqb Q_arith] in *.
  - assert (i = 0)%nat as -> by lia. reflexivity.
  - destruct i as [|i].
    + rewrite Nat.add_0_r in Hx.
      assert (Qlt_bool x (nat_Q (S j)) = true) as ->.
      { apply Qlt_bool_iff. rewrite Hx. apply nat_Q_lt. lia. }
      assert (Qeq_bool (nat_Q j) x = true) as ->.
      { apply Qeq_bool_iff. symmetry. exact Hx. }
      reflexivity.
    + assert (Qlt_bool x (nat_Q (S j)) = false) as ->.
      { apply Qlt_bool_false. rewrite Hx. apply nat_Q_le. lia. }
      apply IH; [|lia]. rewrite Hx.
      replace (S j + i)%nat with (j + S i)%nat by lia. reflexivity.
Qed.

Lemma last_knot n : List.last (map nat_Q (seq 1 n)) (nat_Q 0) = nat_Q n.
Proof.
  destruct n as [|n]; [reflexivity|].
  rewrite seq_S, map_app. simpl. apply last_last.
Qed.

(** The sample positions of [_interp1d] for a target length equal to the
    native length are the integers. *)
Lemma linspace_knots n i x :
  linspace (T:=Q) 0%Q (nat_Q (S n) - 1)%Q (S n) !! i = Some x ->
  (x == nat_Q i)%Q /\ (i <= n)%nat.
Proof.
  destruct n as [|n].
  - destruct i; simpl; [|discriminate].
    intros [= <-]. split; [reflexivity|lia].
  - cbn [linspace]. intros H.
    assert (nat_Q (S (S n)) - 1 == nat_Q (S n))%Q as Hstop.
    { unfold nat_Q. rewrite (Nat2Z.inj_succ (S n)), <- Z.add_1_r.
      rewrite inject_Z_plus. simpl. ring. }
    assert (~ nat_Q (S n) == 0)%Q as Hnz.
    { intros E. pose proof (nat_Q_lt 0 (S n) ltac:(lia)) as L.
      rewrite E in L. apply (Qlt_irrefl _ L). }
    destruct (decide (i < S n)%nat) as [Hi|Hi].
    + rewrite lookup_app_l in H by (rewrite length_map, length_seq; lia).
      rewrite map_fmap, list_lookup_fmap, lookup_seq_lt in H by lia.
      simpl in H. injection H as <-. split; [|lia].
      unfold of_nat. cbn [add sub mul div of_Z Q_arith].
      fold (nat_Q i) (nat_Q (S n)).
      rewrite Hstop. field. exact Hnz.
    + rewrite lookup_app_r in H by (rewrite length_map, length_seq; lia).
      rewrite length_map, length_seq in H.
      destruct (i - S n)%nat as [|k] eqn:E; simpl in H; [|discriminate].
      injection H as <-. assert (i = S n) as -> by lia.
      split; [exact Hstop | lia].
Qed.

Lemma interp1d_native_length (v : list Q) :
  (1 <= length v)%nat -> _interp1d v (length v) = Ok v.
Proof.
  intros Hv. destruct v as [|f0 fp']; [simpl in Hv; lia|]. clear Hv.
  unfold _interp1d. cbn [length]. rewrite arange_succ.
  cbn [interp]. rewrite length_map, length_seq, Nat.eqb_refl. cbn [negb].
  f_equal. apply list_eq. intros i. rewrite map_fmap, list_lookup_fmap.
  change (@of_Z Q Q_arith 0) with 0%Q.
  change (sub (of_nat (S (length fp'))) (of_Z 1))
    with (nat_Q (S (length fp')) - 1)%Q.
  destruct (linspace 0%Q (nat_Q (S (length fp')) - 1)%Q (S (length fp')) !! i)
    as [x|] eqn:E; cbn [fmap option_fmap option_map ltb Q_arith].
  - apply linspace_knots in E as [Hx Hi].
    rewrite last_knot.
    assert (Qlt_bool (nat_Q (length fp')) x = false) as ->.
    { apply Qlt_bool_false. rewrite Hx. apply nat_Q_le, Hi. }
    assert (Qlt_bool x (nat_Q 0) = false) as ->.
    { apply Qlt_bool_false. rewrite Hx. apply nat_Q_le. lia. }
    symmetry. apply locate_at_knot; [exact Hx | exact Hi].
  - apply lookup_ge_None in E. rewrite length_linspace in E.
    symmetry. apply lookup_ge_None. simpl. lia.
Qed.

(** *** C6 *)

(** C6: for a vector of native length at least one, resampling returns a
    vector of exactly the target length, whatever the target length, in
    binary64 arithmetic as in exact arithmetic; and resampling to the
    native length returns, in exact arithmetic, the vector itself, every
    sample position falling on a knot. *)
Theorem resample_length_and_identity :
  (forall (T : Type) (A : Arith T) (v : list T) (F : nat),
     (1 <= length v)%nat -> exists r, _interp1d v F = Ok r /\ length r = F)
  /\ (forall v : list Q,
        (1 <= length v)%nat -> _interp1d v (length v) = Ok v).
Proof.
  split.
  - intros T A v F. apply length_interp1d.
  - apply interp1d_native_length.
Qed.

Lemma resample_length_and_identity_witness :
  (exists r, _interp1d [1.5; 2.25; 7]%float 5 = Ok r /\ length r = 5%nat)
  /\ _interp1d [1 # 2; 3 # 4; 7]%Q 3 = Ok [1 # 2; 3 # 4; 7]%Q.
Proof.
  split.
  - apply (proj1 resample_length_and_identity float float_arith
             [1.5; 2.25; 7]%float 5).
    simpl. lia.
  - apply (proj2 resample_length_and_identity [1 # 2; 3 # 4; 7]%Q).
    simpl. lia.
Defined.

(** In binary64 too, on an example: the sample positions 0, 1, 2, 3 are
    computed without rounding. *)
Example resample_native_length_binary64 :
  _interp1d [1.5; 2.25; 7; 0.125]%float 4 = Ok [1.5; 2.25; 7; 0.125]%float.
Proof. vm_compute. reflexivity. Qed.

(** *** C3 *)

Lemma vec_eq_cons_inv x u y v :
  vec_eq (x :: u) (y :: v) -> (x == y)%Q /\ vec_eq u v.
Proof. intros H. inversion H; subst. split; assumption. Qed.

(** C3, as stated, fails: 32767 / 65535 is not one half, in exact
    arithmetic or in binary64, so the raw vector of the example is not
    0, 0.5, 1, and its resampling is not 0, 0.25, 0.5, 0.75, 1. *)
Lemma scenario_values_not_round :
  max_axis0 scenario_image = Ok [0; 32767; 65535]%Z
  /\ (exists p,
        process_image scenario_params scenario_image = Ok p
        /\ ~ vec_eq (p_ni p) [0; 1 # 2; 1]%Q
        /\ ~ vec_eq (p_ut p) [0; 1 # 4; 1 # 2; 3 # 4; 1]%Q
        /\ ~ vec_eq (p_flat p) [0; 0; 0; 3 # 4; 1]%Q)
  /\ (exists p,
        process_image scenario_params64 scenario_image = Ok p
        /\ p_ni p <> [0; 0.5; 1]%float
        /\ p_ut p <> [0; 0.25; 0.5; 0.75; 1]%float
        /\ p_flat p <> [0; 0; 0; 0.75; 1]%float).
Proof.
  split; [reflexivity|]. split.
  - eexists. split; [vm_compute; reflexivity|].
    cbn [p_ni p_ut p_flat]. repeat split; intros H.
    + apply vec_eq_cons_inv in H as [_ H].
      apply vec_eq_cons_inv in H as [H _]. vm_compute in H. discriminate.
    + apply vec_eq_cons_inv in H as [_ H].
      apply vec_eq_cons_inv in H as [H _]. vm_compute in H. discriminate.
    + do 3 apply vec_eq_cons_inv in H as [_ H].
      apply vec_eq_cons_inv in H as [H _]. vm_compute in H. discriminate.
  - eexists. split; [vm_compute; reflexivity|].
    cbn [p_ni p_ut p_flat]. repeat split; intros H.
    + apply (f_equal (fun l => PrimFloat.eqb (nth 1 l 0%float) 0.5)) in H.
      vm_compute in H. discriminate.
    + apply (f_equal (fun l => PrimFloat.eqb (nth 1 l 0%float) 0.25)) in H.
      vm_compute in H. discriminate.
    + apply (f_equal (fun l => PrimFloat.eqb (nth 3 l 0%float) 0.75)) in H.
      vm_compute in H. discriminate.
Qed.

(** C3, amended: for an image whose column maxima are 0, 32767, 65535,
    processing with divisor 65535, threshold 39321 (relative threshold
    0.6) and target length 5 gives the raw vector 0, 32767/65535, 1, the
    resampled vector 0, 32767/131070, 32767/65535, 49151/65535, 1, and the
    thresholded vector 0, 0, 0, 49151/65535, 1: exactly the elements
    strictly below 0.6 are zeroed. In binary64 the three vectors are the
    roundings of these fractions, 0.49999237048905165 for 32767/65535. *)
Theorem scenario_values (image : list (list Z)) :
  max_axis0 image = Ok [0; 32767; 65535]%Z ->
  init_params 65535%Q 39321%Q 5 = Ok scenario_params
  /\ (_threshold scenario_params == 6 # 10)%Q
  /\ (exists p,
        process_image scenario_params image = Ok p
        /\ vec_eq (p_ni p) [0; 32767 # 65535; 1]%Q
        /\ vec_eq (p_ut p)
             [0; 32767 # 131070; 32767 # 65535; 49151 # 65535; 1]%Q
        /\ vec_eq (p_flat p) [0; 0; 0; 49151 # 65535; 1]%Q
        /\ Forall2 (fun u f => if Qlt_bool u (6 # 10) then f = 0%Q else f = u)
             (p_ut p) (p_flat p))
  /\ init_params 65535%float 39321%float 5 = Ok scenario_params64
  /\ (exists p,
        process_image scenario_params64 image = Ok p
        /\ p_ni p = [0; 0x1.fffdfffdfffep-2; 1]%float
        /\ p_ut p = [0; 0x1.fffdfffdfffep-3; 0x1.fffdfffdfffep-2;
                     0x1.7fff7fff7fff8p-1; 1]%float
        /\ p_flat p = [0; 0; 0; 0x1.7fff7fff7fff8p-1; 1]%float).
Proof.
  intros H. split; [reflexivity|]. split; [reflexivity|].
  unfold process_image. rewrite H. cbn [mbind result_bind rbind].
  split; [|split; [vm_compute; reflexivity|]].
  - eexists. split; [vm_compute; reflexivity|].
    cbn [p_ni p_ut p_flat].
    repeat split; repeat (constructor; try reflexivity).
  - eexists. split; [vm_compute; reflexivity|].
    cbn [p_ni p_ut p_flat]. repeat split.
Qed.

Lemma scenario_values_witness :
  exists p,
    process_image scenario_params scenario_image = Ok p
    /\ vec_eq (p_ni p) [0; 32767 # 65535; 1]%Q
    /\ vec_eq (p_ut p)
         [0; 32767 # 131070; 32767 # 65535; 49151 # 65535; 1]%Q
    /\ vec_eq (p_flat p) [0; 0; 0; 49151 # 65535; 1]%Q
    /\ Forall2 (fun u f => if Qlt_bool u (6 # 10) then f = 0%Q else f = u)
         (p_ut p) (p_flat p).
Proof.
  apply (scenario_values scenario_image). reflexivity.
Defined.

End SignalProps.

(** * Properties of the table merge *)

Module FrameProps.
Import Frame.

Section frame.
Context {V : Type} `{EqDecision V}.
Implicit Types (df old : DataFrame V) (row : list (@cell V)) (k : @cell V).

(** *** Cells and columns *)

Lemma get_cell_fmap (f : string -> @cell V) (cols : list string) (c : string) :
  get_cell cols (f <$> cols) c = if decide (c ∈ cols) then f c else None.
Proof.
  induction cols as [|c' cols IH]; [reflexivity|].
  rewrite fmap_cons. cbn [get_cell].
  destruct (decide (c = c')) as [->|Hne].
  - rewrite decide_True by left. reflexivity.
  - rewrite IH. destruct (decide (c ∈ cols)) as [Hin|Hin].
    + rewrite decide_True by (right; exact Hin). reflexivity.
    + rewrite decide_False; [reflexivity|].
      intros [?|?]%elem_of_cons; contradiction.
Qed.

Lemma get_cell_absent cols row c : c ∉ cols -> get_cell cols row c = None.
Proof.
  revert row. induction cols as [|c' cols IH]; intros row Hc; csimpl;
    [reflexivity|].
  apply not_elem_of_cons in Hc as [Hne Hc].
  destruct row as [|x row]; [reflexivity|].
  rewrite decide_False by exact Hne. apply IH, Hc.
Qed.

(** Re-expressing a row over more columns keeps every cell it had and
    leaves the other columns missing. *)
Lemma get_cell_reindex cols target row c :
  c ∈ target ->
  get_cell target (reindex cols target row) c = get_cell cols row c.
Proof.
  intros Hc. unfold reindex. rewrite get_cell_fmap, decide_True by exact Hc.
  reflexivity.
Qed.

Lemma reindex_twice cols target row :
  reindex target target (reindex cols target row) = reindex cols target row.
Proof.
  unfold reindex at 1 3. apply list_fmap_ext. intros i c Hc.
  apply get_cell_reindex. eapply list_elem_of_lookup_2, Hc.
Qed.

Lemma elem_of_union_columns (a b : list string) c :
  c ∈ union_columns a b <-> c ∈ a \/ c ∈ b.
Proof.
  unfold union_columns. rewrite elem_of_app, list_elem_of_filter.
  destruct (decide (c ∈ a)); tauto.
Qed.

Lemma union_columns_absorb (a b : list string) :
  union_columns (union_columns a b) b = union_columns a b.
Proof.
  unfold union_columns at 1.
  assert (filter (fun c => c ∉ union_columns a b) b = []) as ->.
  { apply elem_of_nil_inv. intros c [Hc Hin]%list_elem_of_filter.
    apply Hc, elem_of_union_columns. right. exact Hin. }
  apply app_nil_r.
Qed.

(** *** Dropping duplicates *)

Lemma compress_keep_last {A : Type} (key : A -> @cell V) (l : list A) :
  compress (negb <$> duplicated_last (key <$> l)) l = keep_last key l.
Proof.
  induction l as [|x l IH]; csimpl; [reflexivity|].
  rewrite IH. destruct (decide (key x ∈ key <$> l)) as [Hin|Hin].
  - rewrite bool_decide_eq_true_2 by exact Hin. reflexivity.
  - rewrite bool_decide_eq_false_2 by exact Hin. reflexivity.
Qed.

Lemma keep_last_ext {A : Type} (key key' : A -> @cell V) (l : list A) :
  (forall x, x ∈ l -> key x = key' x) -> keep_last key l = keep_last key' l.
Proof.
  induction l as [|x l IH]; intros Hext; csimpl; [reflexivity|].
  assert (key <$> l = key' <$> l) as ->.
  { apply list_fmap_ext. intros i y Hy. apply Hext. right.
    eapply list_elem_of_lookup_2, Hy. }
  rewrite (Hext x) by left. rewrite IH by (intros; apply Hext; right; done).
  reflexivity.
Qed.

Lemma keep_last_fmap {A B : Type} (f : A -> B) (key : B -> @cell V)
    (l : list A) :
  keep_last key (f <$> l) = f <$> keep_last (key ∘ f) l.
Proof.
  induction l as [|x l IH]; csimpl; [reflexivity|].
  rewrite <- list_fmap_compose, IH.
  destruct (decide (key (f x) ∈ key ∘ f <$> l)); reflexivity.
Qed.

Lemma elem_of_keep_last {A : Type} (key : A -> @cell V) (l : list A) x :
  x ∈ keep_last key l -> x ∈ l.
Proof.
  induction l as [|y l IH]; csimpl; [done|].
  destruct (decide (key y ∈ key <$> l)).
  - intros Hx. right. auto.
  - intros [->|Hx]%elem_of_cons; [left | right; auto].
Qed.

Lemma keep_last_keys {A : Type} (key : A -> @cell V) (l : list A) k :
  k ∈ key <$> keep_last key l <-> k ∈ key <$> l.
Proof.
  induction l as [|y l IH]; csimpl; [reflexivity|].
  destruct (decide (key y ∈ key <$> l)) as [Hin|Hin].
  - rewrite IH, elem_of_cons. split; [auto|].
    intros [->|?]; assumption.
  - rewrite fmap_cons, !elem_of_cons, IH. reflexivity.
Qed.

Lemma keep_last_NoDup {A : Type} (key : A -> @cell V) (l : list A) :
  NoDup (key <$> keep_last key l).
Proof.
  induction l as [|y l IH]; csimpl; [constructor|].
  destruct (decide (key y ∈ key <$> l)) as [Hin|Hin]; [exact IH|].
  rewrite fmap_cons. constructor; [|exact IH].
  rewrite keep_last_keys. exact Hin.
Qed.

Lemma keep_last_of_NoDup {A : Type} (key : A -> @cell V) (l : list A) :
  NoDup (key <$> l) -> keep_last key l = l.
Proof.
  induction l as [|y l IH]; csimpl; [reflexivity|].
  intros [Hy Hl]%NoDup_cons. rewrite decide_False by exact Hy.
  rewrite IH by exact Hl. reflexivity.
Qed.

(** Dropping duplicates from two tables put end to end: of the first,
    what survives on its own and is not overridden by the second; of
    the second, what survives on its own. *)
Lemma keep_last_app {A : Type} (key : A -> @cell V) (l1 l2 : list A) :
  keep_last key (l1 ++ l2)
  = filter (fun x => key x ∉ key <$> l2) (keep_last key l1)
    ++ keep_last key l2.
Proof.
  induction l1 as [|x l1 IH]; csimpl; [reflexivity|].
  rewrite fmap_app.
  destruct (decide (key x ∈ key <$> l1)) as [H1|H1].
  - rewrite decide_True by (apply elem_of_app; left; exact H1). exact IH.
  - rewrite filter_cons.
    destruct (decide (key x ∈ key <$> l2)) as [H2|H2].
    + rewrite decide_True by (apply elem_of_app; right; exact H2).
      rewrite decide_False by (intros Hn; apply Hn, H2). exact IH.
    + rewrite decide_False
        by (intros [?|?]%elem_of_app; contradiction).
      rewrite decide_True by exact H2. csimpl. rewrite IH. reflexivity.
Qed.

Lemma filter_keep_last_overridden {A : Type} (key : A -> @cell V)
    (l : list A) :
  filter (fun x => key x ∉ key <$> l) (keep_last key l) = [].
Proof.
  apply elem_of_nil_inv. intros x [Hx Hin]%list_elem_of_filter.
  apply Hx, list_elem_of_fmap_2, (elem_of_keep_last key l x Hin).
Qed.

(** Merging the second table in once more changes nothing. *)
Lemma keep_last_absorb {A : Type} (key : A -> @cell V) (l1 l2 : list A) :
  keep_last key (keep_last key (l1 ++ l2) ++ l2) = keep_last key (l1 ++ l2).
Proof.
  rewrite (keep_last_app key (keep_last key (l1 ++ l2)) l2).
  rewrite (keep_last_of_NoDup key (keep_last key (l1 ++ l2)))
    by apply keep_last_NoDup.
  rewrite (keep_last_app key l1 l2), filter_app.
  rewrite filter_keep_last_overridden, app_nil_r.
  rewrite list_filter_filter_l by auto. reflexivity.
Qed.

(** Among the survivors, the rows with a given key are the last row of
    the table with that key, if there is one. *)
Lemma filter_keep_last {A : Type} (key : A -> @cell V) (l : list A) k :
  filter (fun x => key x = k) (keep_last key l)
  = option_list (last (filter (fun x => key x = k) l)).
Proof.
  induction l as [|x l IH]; csimpl; [reflexivity|].
  rewrite (filter_cons _ x l).
  destruct (decide (key x ∈ key <$> l)) as [Hin|Hin].
  - rewrite IH. destruct (decide (key x = k)) as [Hk|Hk]; [|reflexivity].
    rewrite last_cons.
    destruct (last (filter (fun x => key x = k) l)) eqn:E; [reflexivity|].
    apply last_None in E. exfalso.
    apply list_elem_of_fmap in Hin as (y & Hy & Hyl).
    eapply (filter_nil_not_elem_of _ _ y E); [congruence | exact Hyl].
  - rewrite filter_cons, IH.
    destruct (decide (key x = k)) as [Hk|Hk]; [|reflexivity].
    assert (filter (fun x => key x = k) l = []) as ->.
    { apply elem_of_nil_inv. intros y [Hy Hyl]%list_elem_of_filter.
      apply Hin. rewrite Hk, <- Hy. apply list_elem_of_fmap_2, Hyl. }
    reflexivity.
Qed.

Lemma filter_fmap {A B : Type} (f : A -> B) (P : B -> Prop)
    `{!forall y, Decision (P y)} (l : list A) :
  filter P (f <$> l) = f <$> filter (P ∘ f) l.
Proof.
  induction l as [|x l IH]; [reflexivity|].
  rewrite fmap_cons, !filter_cons, IH. csimpl.
  destruct (decide (P (f x))); reflexivity.
Qed.

Lemma elem_of_keep_last_lookup {A : Type} (key : A -> @cell V)
    (l : list A) i x :
  l !! i = Some x -> key x ∉ drop (S i) (key <$> l) -> x ∈ keep_last key l.
Proof.
  revert i. induction l as [|y l IH]; intros i Hi Hk; [done|].
  destruct i as [|i]; csimpl in *.
  - injection Hi as ->. rewrite drop_0 in Hk.
    rewrite decide_False by exact Hk. left.
  - destruct (decide (key y ∈ key <$> l)); [|right]; eapply IH; eauto.
Qed.

(** *** The merge *)

Lemma id_of_reindex cols target row :
  "ID" ∈ target -> id_of target (reindex cols target row) = id_of cols row.
Proof. apply get_cell_reindex. Qed.

Lemma ids_reindexed cols target (rows : list (list (@cell V))) :
  "ID" ∈ target ->
  id_of target <$> (reindex cols target <$> rows) = id_of cols <$> rows.
Proof.
  intros Hid. rewrite <- list_fmap_compose. apply list_fmap_ext.
  intros i row _. apply id_of_reindex, Hid.
Qed.

Lemma merge_unfold old df :
  merge old df
  = let cols := union_columns (columns old) (columns df) in
    if decide ("ID" ∈ cols)
    then let vals := keep_last (id_of cols) (stacked old df) in
         Ok (mk_frame cols (seq 0 (length vals)) vals)
    else Raise KeyError.
Proof.
  unfold merge, drop_duplicates, concat, stacked. cbn [columns].
  destruct (decide ("ID" ∈ union_columns (columns old) (columns df)));
    [|reflexivity].
  cbn [mbind result_bind rbind]. unfold reset_index, key_column.
  cbn [columns values index].
  rewrite (compress_keep_last
             (fun row => get_cell (union_columns (columns old) (columns df))
                           row "ID")).
  reflexivity.
Qed.

Lemma stacked_ids old df :
  "ID" ∈ union_columns (columns old) (columns df) ->
  id_of (union_columns (columns old) (columns df)) <$> stacked old df
  = ids old ++ ids df.
Proof.
  intros Hid. unfold stacked. cbn zeta.
  rewrite fmap_app, !ids_reindexed by exact Hid. reflexivity.
Qed.

(** The merged rows, told by the two tables: the surviving rows of the
    existing table, then the rows of the new table that are not
    repeated further on in it. *)
Lemma keep_last_stacked old df :
  "ID" ∈ union_columns (columns old) (columns df) ->
  keep_last (id_of (union_columns (columns old) (columns df)))
    (stacked old df)
  = (reindex (columns old) (union_columns (columns old) (columns df))
       <$> surviving old df)
    ++ (reindex (columns df) (union_columns (columns old) (columns df))
          <$> keep_last (id_of (columns df)) (values df)).
Proof.
  intros Hid. unfold stacked, surviving. cbn zeta.
  set (cols := union_columns (columns old) (columns df)) in *.
  rewrite keep_last_app, ids_reindexed by exact Hid.
  rewrite !keep_last_fmap, filter_fmap.
  rewrite (keep_last_ext (id_of cols ∘ reindex (columns old) cols)
             (id_of (columns old)))
    by (intros; apply id_of_reindex, Hid).
  rewrite (keep_last_ext (id_of cols ∘ reindex (columns df) cols)
             (id_of (columns df)))
    by (intros; apply id_of_reindex, Hid).
  f_equal. f_equal. apply list_filter_iff. intros row. csimpl.
  rewrite id_of_reindex by exact Hid. reflexivity.
Qed.

Lemma stacked_rows_reindexed old df row :
  row ∈ stacked old df ->
  let cols := union_columns (columns old) (columns df) in
  reindex cols cols row = row.
Proof.
  unfold stacked. cbn zeta.
  intros [(r & -> & _)%list_elem_of_fmap | (r & -> & _)%list_elem_of_fmap]
           %elem_of_app; apply reindex_twice.
Qed.

Lemma rows_with_stacked old df k :
  "ID" ∈ union_columns (columns old) (columns df) ->
  rows_with (union_columns (columns old) (columns df)) k (stacked old df)
  = (reindex (columns old) (union_columns (columns old) (columns df))
       <$> rows_with (columns old) k (values old))
    ++ (reindex (columns df) (union_columns (columns old) (columns df))
          <$> rows_with (columns df) k (values df)).
Proof.
  intros Hid. unfold rows_with, stacked. cbn zeta.
  rewrite filter_app, !filter_fmap.
  f_equal; f_equal; apply list_filter_iff; intros row; csimpl;
    rewrite id_of_reindex by exact Hid; reflexivity.
Qed.

Lemma rows_with_absent cols k (rows : list (list (@cell V))) :
  k ∉ id_of cols <$> rows -> rows_with cols k rows = [].
Proof.
  intros Hk. apply elem_of_nil_inv.
  intros row [Hrow Hin]%list_elem_of_filter.
  apply Hk. rewrite <- Hrow. apply list_elem_of_fmap_2, Hin.
Qed.

(** Stacking the new table under the merged table and dropping
    duplicates gives the merged rows again. *)
Lemma merged_again (old df : DataFrame V) (labels : list nat) :
  let cols := union_columns (columns old) (columns df) in
  let vals : list (list (@cell V)) :=
    keep_last (id_of cols) (stacked old df) in
  keep_last (id_of cols) (stacked (mk_frame cols labels vals) df) = vals.
Proof.
  cbn zeta. unfold stacked at 1. cbn [columns values]. cbn zeta.
  rewrite union_columns_absorb.
  set (cols := union_columns (columns old) (columns df)).
  assert (reindex cols cols <$> keep_last (id_of cols) (stacked old df)
          = keep_last (id_of cols) (stacked old df)) as ->.
  { rewrite <- (list_fmap_id (keep_last _ _)) at 2.
    apply Forall_fmap_ext, Forall_forall. intros row Hrow.
    apply elem_of_keep_last in Hrow.
    apply (stacked_rows_reindexed old df row Hrow). }
  unfold stacked. cbn zeta. fold cols.
  apply keep_last_absorb.
Qed.

Lemma update_db_unfold (df old : DataFrame V) :
  update_db df (Some old)
  = let cols := union_columns (columns old) (columns df) in
    if decide ("ID" ∈ cols)
    then let vals := keep_last (id_of cols) (stacked old df) in
         (None, Some (mk_frame cols (seq 0 (length vals)) vals))
    else (Some KeyError, Some old).
Proof.
  unfold update_db. rewrite merge_unfold. cbn zeta.
  destruct (decide ("ID" ∈ _)); reflexivity.
Qed.

(** *** C4 *)

(** C4: when the merge produces a table, every identifier of either
    input occurs in it exactly once and no other identifier does; the
    row it carries there is the last row of the new table with that
    identifier, or, when the new table has none, the last such row of
    the existing table. (In a table without the column every row has
    the missing identifier, as it has after the join.) *)
Theorem merge_keeps_each_id_once (old df m : DataFrame V) :
  merge old df = Ok m ->
  NoDup (ids m)
  /\ (forall k, k ∈ ids m <-> k ∈ ids old \/ k ∈ ids df)
  /\ (forall k row,
         last (rows_with (columns df) k (values df)) = Some row ->
         rows_with (columns m) k (values m)
         = [reindex (columns df) (columns m) row])
  /\ (forall k row,
         k ∉ ids df ->
         last (rows_with (columns old) k (values old)) = Some row ->
         rows_with (columns m) k (values m)
         = [reindex (columns old) (columns m) row]).
Proof.
  rewrite merge_unfold. cbn zeta.
  destruct (decide ("ID" ∈ union_columns (columns old) (columns df)))
    as [Hid|]; [|discriminate].
  intros [= <-]. cbn [columns values]. unfold ids at 1 2, key_column.
  cbn [columns values].
  set (cols := union_columns (columns old) (columns df)) in *.
  change (fun row => get_cell cols row "ID") with (@id_of V cols).
  split; [apply keep_last_NoDup|].
  split.
  { intros k. rewrite keep_last_keys. unfold cols.
    rewrite stacked_ids by exact Hid. apply elem_of_app. }
  split.
  - intros k row Hlast. unfold rows_with at 1.
    rewrite filter_keep_last.
    change (filter (fun x => @id_of V cols x = k) (stacked old df))
      with (rows_with cols k (stacked old df)).
    unfold cols. rewrite rows_with_stacked by exact Hid.
    rewrite last_app, fmap_last, Hlast. reflexivity.
  - intros k row Hk Hlast. unfold rows_with at 1.
    rewrite filter_keep_last.
    change (filter (fun x => @id_of V cols x = k) (stacked old df))
      with (rows_with cols k (stacked old df)).
    unfold cols. rewrite rows_with_stacked by exact Hid.
    rewrite (rows_with_absent (columns df)) by exact Hk.
    rewrite app_nil_r, fmap_last, Hlast. reflexivity.
Qed.

(** *** C5 *)

(** C5: running [update_db] a second time with the same new table
    leaves the file as the first run left it: same columns, same row
    labels, same rows in the same order. *)
Theorem update_db_idempotent (df : DataFrame V)
    (disk : option (DataFrame V)) :
  snd (update_db df (snd (update_db df disk)))
  = snd (update_db df disk).
Proof.
  destruct disk as [old|]; [|reflexivity].
  rewrite (update_db_unfold df old). cbn zeta.
  destruct (decide ("ID" ∈ union_columns (columns old) (columns df)))
    as [Hid|Hid]; cbn [snd]; rewrite update_db_unfold.
  - cbn [columns values]. cbn zeta.
    rewrite union_columns_absorb, decide_True by exact Hid.
    rewrite merged_again. reflexivity.
  - cbn zeta. rewrite decide_False by exact Hid. reflexivity.
Qed.

(** *** C8 *)


(** *** C10 *)

(** C10, amended: when the merge produces a table, its rows are the
    surviving rows of the existing table (those whose identifier occurs
    neither in the new table nor further on in the existing table) in
    their order, followed by the rows of the new table that are not
    repeated further on in it, in their order; the row labels count
    from zero; and a row of the existing table keeps every cell it had,
    the columns that only the new table has being missing in it. *)
Theorem merge_frame (old df m : DataFrame V) :
  merge old df = Ok m ->
  columns m = union_columns (columns old) (columns df)
  /\ values m
     = (reindex (columns old) (columns m) <$> surviving old df)
       ++ (reindex (columns df) (columns m)
             <$> keep_last (id_of (columns df)) (values df))
  /\ index m = seq 0 (length (values m))
  /\ (forall i row,
         values old !! i = Some row ->
         id_of (columns old) row ∉ drop (S i) (ids old) ->
         id_of (columns old) row ∉ ids df ->
         reindex (columns old) (columns m) row ∈ values m)
  /\ (forall row c,
         get_cell (columns m) (reindex (columns old) (columns m) row) c
         = if decide (c ∈ columns old) then get_cell (columns old) row c
           else None).
Proof.
  rewrite merge_unfold. cbn zeta.
  destruct (decide ("ID" ∈ union_columns (columns old) (columns df)))
    as [Hid|]; [|discriminate].
  intros [= <-]. cbn [columns values index].
  rewrite keep_last_stacked by exact Hid.
  split; [reflexivity|]. split; [reflexivity|]. split; [reflexivity|].
  split.
  - intros i row Hi Hlater Hnew. apply elem_of_app. left.
    apply list_elem_of_fmap_2. unfold surviving.
    apply list_elem_of_filter. split; [exact Hnew|].
    eapply elem_of_keep_last_lookup; [exact Hi|exact Hlater].
  - intros row c. unfold reindex. rewrite get_cell_fmap.
    destruct (decide (c ∈ columns old)) as [Hc|Hc].
    + rewrite decide_True; [reflexivity|].
      apply elem_of_union_columns. left. exact Hc.
    + rewrite get_cell_absent by exact Hc.
      destruct (decide (c ∈ _)); reflexivity.
Qed.

End frame.
(** *** The examples *)

Lemma merge_keeps_each_id_once_witness :
  NoDup (ids (mk_frame ["ID"; "v"] [0; 1; 2]%nat
                [[Some "3"; Some "z"]; [Some "1"; Some "v_new"];
                 [Some "2"; Some "q"]]))
  /\ rows_with ["ID"; "v"] (Some "1")
       [[Some "3"; Some "z"]; [Some "1"; Some "v_new"];
        [Some "2"; Some "q"]]
     = [[Some "1"; Some "v_new"]].
Proof.
  destruct (merge_keeps_each_id_once old_table new_table
              (mk_frame ["ID"; "v"] [0; 1; 2]%nat
                 [[Some "3"; Some "z"]; [Some "1"; Some "v_new"];
                  [Some "2"; Some "q"]]))
    as (Hnodup & _ & Hnew & _); [vm_compute; reflexivity|].
  split; [exact Hnodup|].
  apply (Hnew (Some "1") [Some "1"; Some "v_new"]).
  vm_compute. reflexivity.
Defined.



(** C10, as stated, fails: the first row of [repeated_table] has the
    identifier 1, which does not occur in [other_table], and yet the
    merged table does not have the row; the second row of
    [repeated_table] has the same identifier and displaces it. *)
Lemma earlier_duplicate_dropped :
  values repeated_table !! 0%nat = Some [Some "1"; Some "first"]
  /\ (id_of (columns repeated_table) [Some "1"; Some "first"]
        ∉ ids other_table)
  /\ merge repeated_table other_table
     = Ok (mk_frame ["ID"; "v"] [0; 1]%nat
             [[Some "1"; Some "second"]; [Some "2"; Some "q"]])
  /\ (reindex (columns repeated_table) ["ID"; "v"] [Some "1"; Some "first"]
        ∉ [[Some "1"; Some "second"]; [Some "2"; Some "q"]]).
Proof.
  split; [reflexivity|]. split.
  { intros H. apply list_elem_of_In in H. vm_compute in H.
    destruct H as [H|[]]. discriminate. }
  split; [vm_compute; reflexivity|].
  intros H. apply list_elem_of_In in H. vm_compute in H.
  destruct H as [H|[H|[]]]; discriminate.
Qed.

Lemma merge_frame_witness :
  values (mk_frame ["ID"; "v"] [0; 1; 2]%nat
            [[Some "3"; Some "z"]; [Some "1"; Some "v_new"];
             [Some "2"; Some "q"]])
  = (reindex ["ID"; "v"] ["ID"; "v"] <$> surviving old_table new_table)
    ++ (reindex ["ID"; "v"] ["ID"; "v"]
          <$> keep_last (id_of ["ID"; "v"]) (values new_table)).
Proof.
  destruct (merge_frame old_table new_table
              (mk_frame ["ID"; "v"] [0; 1; 2]%nat
                 [[Some "3"; Some "z"]; [Some "1"; Some "v_new"];
                  [Some "2"; Some "q"]]))
    as (_ & Hvals & _); [vm_compute; reflexivity|].
  exact Hvals.
Defined.

End FrameProps.

(** * Group selection *)

Module KeemPlotProps.
Import PyStr RmeParser KeemPlot.

(** C9, as stated, fails: the scenario text has one group, and the group
    number 0, which is outside 1..1, selects that group: the index -1
    counts from the end. *)
Lemma group_zero_selects_last :
  length (snd (rme_parser scenario_text)) = 1%nat
  /\ dbdata (snd (rme_parser scenario_text)) 0
     = Ok [["A"; "1"; "x"; "10"]; ["A"; "1"; "y"; "20"]].
Proof. split; vm_compute; reflexivity. Qed.

(** C9, amended: with n parsed groups, group selection fails exactly
    when the group number is above n or not above -n; a group number
    from 1 to n selects the group at that position, and one from 1-n to
    0 selects from the end, 0 being the last group. *)
Theorem group_selection_range {G : Type} (infos : list G) (g : Z) :
  let n := Z.of_nat (length infos) in
  (dbdata infos g = Raise IndexError <-> (n < g \/ g <= - n)%Z)
  /\ (forall x,
         dbdata infos g = Ok x
         <-> (- n < g <= n)%Z
             /\ infos !! Z.to_nat (if (g <=? 0)%Z then n + g - 1 else g - 1)
                = Some x).
Proof.
  cbn zeta. unfold dbdata, py_index.
  set (n := Z.of_nat (length infos)).
  destruct (Z.ltb_spec (g - 1) 0) as [Hneg|Hpos].
  - assert ((g <=? 0)%Z = true) as -> by (apply Z.leb_le; lia).
    replace (g - 1 + n)%Z with (n + g - 1)%Z by lia.
    destruct (Z.leb_spec 0 (n + g - 1)) as [Hlo|Hlo]; cbn [andb].
    + assert ((n + g - 1 <? n)%Z = true) as -> by (apply Z.ltb_lt; lia).
      destruct (infos !! Z.to_nat (n + g - 1)) as [x|] eqn:E.
      * split; [split; [discriminate|lia]|].
        intros y. split; [intros [= ->]; split; [lia|reflexivity]|].
        intros [_ [= ->]]. reflexivity.
      * apply lookup_ge_None in E. unfold n in *. lia.
    + split; [split; [lia|reflexivity]|].
      intros y. split; [discriminate|]. intros [? _]. lia.
  - assert ((g <=? 0)%Z = false) as -> by (apply Z.leb_gt; lia).
    assert ((0 <=? g - 1)%Z = true) as -> by (apply Z.leb_le; lia).
    cbn [andb].
    destruct (Z.ltb_spec (g - 1) n) as [Hhi|Hhi].
    + destruct (infos !! Z.to_nat (g - 1)) as [x|] eqn:E.
      * split; [split; [discriminate|lia]|].
        intros y. split; [intros [= ->]; split; [lia|reflexivity]|].
        intros [_ [= ->]]. reflexivity.
      * apply lookup_ge_None in E. unfold n in *. lia.
    + split; [split; [lia|reflexivity]|].
      intros y. split; [discriminate|]. intros [? _]. lia.
Qed.

Lemma group_selection_range_witness :
  dbdata [10; 20; 30]%Z 4 = Raise IndexError.
Proof.
  apply (group_selection_range [10; 20; 30]%Z 4). left. simpl. lia.
Defined.

End KeemPlotProps.

(** * Further properties of the metadata parser *)

Module ParserMore.
Import PyStr RmeParser ParserNotions ParserProps.

(** *** Groups are only ever appended *)

Lemma step_infos_grow s raw : exists more, infos (step s raw) = infos s ++ more.
Proof.
  destruct s as [lv fl h c d i].
  unfold step, open_blocks, common_line, group_line. simpl.
  repeat match goal with
    | |- context [if ?b then _ else _] => destruct b; simpl
    end;
    first [ exists []; rewrite app_nil_r; reflexivity | eexists; reflexivity ].
Qed.

(** X1: whatever lines follow, the groups completed so far stay as they
    are, in their order, at the head of the parsed groups. *)
Theorem groups_only_appended (s : pstate) (lines : list string) :
  infos s `prefix_of` infos (run s lines).
Proof.
  revert s. induction lines as [|raw lines IH]; intros s; simpl.
  - reflexivity.
  - destruct (step_infos_grow s raw) as [more Hmore].
    etransitivity; [|apply IH]. rewrite Hmore. apply prefix_app_r. reflexivity.
Qed.

(** *** Without a GROUP marker there are no groups *)

Lemma infos_common_line raw s : infos (common_line raw s) = infos s.
Proof. unfold common_line. destruct (first_line s); reflexivity. Qed.

Lemma step_without_group_marker s raw :
  is_parse2 raw = false ->
  level s <> 2%Z -> infos s = [] ->
  level (step s raw) <> 2%Z /\ infos (step s raw) = [].
Proof.
  intros P2 L I. destruct (Z.eqb_spec (level s) 1) as [L1|L1].
  - destruct (is_parse1 raw) eqn:P1.
    + rewrite step_close_common by assumption. simpl.
      split; [discriminate | exact I].
    + rewrite step_common_plain
        by (try apply plain_spec; auto).
      rewrite level_common_line, infos_common_line, L1.
      split; [discriminate | exact I].
  - destruct (is_parse1 raw) eqn:P1.
    + rewrite step_open_common by assumption. simpl.
      split; [discriminate | exact I].
    + rewrite step_outside_plain by (try apply plain_spec; auto).
      split; assumption.
Qed.

(** X2: a text none of whose lines starts with the GROUP marker parses to
    no group at all, whatever its COMMON blocks hold. *)
Theorem no_group_marker_no_groups (text : string) :
  forallb (fun raw => negb (is_parse2 raw)) (readlines text) = true ->
  snd (rme_parser text) = [].
Proof.
  unfold rme_parser, parser. cbn [snd].
  assert (forall lines s,
             forallb (fun raw => negb (is_parse2 raw)) lines = true ->
             level s <> 2%Z -> infos s = [] ->
             infos (run s lines) = []) as Hrun.
  { induction lines as [|raw lines IH]; intros s Hl L I; simpl; [exact I|].
    simpl in Hl. apply andb_true_iff in Hl as [Hraw Hl].
    apply negb_true_iff in Hraw.
    destruct (step_without_group_marker s raw Hraw L I) as [L' I'].
    apply IH; assumption. }
  intros H. apply Hrun; [exact H | discriminate | reflexivity].
Qed.

Lemma no_group_marker_no_groups_witness :
  snd (rme_parser (unlines ["*--*"; "id,sex"; "A,1"; "*--*"; "x,10"])) = [].
Proof.
  apply (no_group_marker_no_groups
           (unlines ["*--*"; "id,sex"; "A,1"; "*--*"; "x,10"])).
  vm_compute. reflexivity.
Defined.

(** *** Stanzas *)







(** *** The renamed column *)




(** *** Markers with white space around them *)

Lemma append_nil (s : string) : "" +:+ s = s.
Proof. reflexivity. Qed.

Lemma append_cons c (a s : string) : String c a +:+ s = String c (a +:+ s).
Proof. reflexivity. Qed.

Lemma append_assoc (a b c : string) : (a +:+ b) +:+ c = a +:+ (b +:+ c).
Proof.
  induction a as [|x a IH]; [reflexivity|].
  exact (f_equal (String x) IH).
Qed.

Lemma lstrip_all p ws s :
  all_chars p ws = true -> lstrip_by p (ws +:+ s) = lstrip_by p s.
Proof.
  induction ws as [|c ws IH]; rewrite ?append_nil, ?append_cons;
    cbn [all_chars lstrip_by]; [reflexivity|].
  intros [Hc Hws]%andb_true_iff. rewrite Hc. auto.
Qed.

Lemma rstrip_past p a c b :
  p c = false ->
  rstrip_by p (a +:+ String c b) = a +:+ String c (rstrip_by p b).
Proof.
  intros Hc. induction a as [|x a IH]; rewrite ?append_nil, ?append_cons;
    cbn [rstrip_by].
  - destruct (rstrip_by p b); [rewrite Hc|]; reflexivity.
  - rewrite IH. destruct a; reflexivity.
Qed.

Lemma lstrip_newlines_of_space ws s :
  all_chars is_space ws = true ->
  exists ws', all_chars is_space ws' = true
              /\ lstrip_by is_newline (ws +:+ String "*" s)
                 = ws' +:+ String "*" s.
Proof.
  induction ws as [|c ws IH]; rewrite ?append_nil, ?append_cons;
    cbn [all_chars lstrip_by].
  - intros _. exists "". split; reflexivity.
  - intros [Hc Hws]%andb_true_iff. destruct (is_newline c).
    + auto.
    + exists (String c ws). cbn [all_chars]. rewrite Hc, Hws.
      split; reflexivity.
Qed.

Lemma strip_chomp_marker ws m rest :
  all_chars is_space ws = true ->
  exists rest', strip (chomp (ws +:+ String "*" (m +:+ String "*" rest)))
                = String "*" (m +:+ String "*" rest').
Proof.
  intros Hws. unfold chomp, strip, strip_by.
  destruct (lstrip_newlines_of_space ws (m +:+ String "*" rest) Hws)
    as (ws' & Hws' & ->).
  rewrite <- (append_cons "*" m), <- append_assoc.
  rewrite rstrip_past by reflexivity.
  rewrite append_assoc, lstrip_all by exact Hws'.
  assert (forall t, lstrip_by is_space (String "*" m +:+ t)
                    = String "*" m +:+ t) as -> by reflexivity.
  rewrite (rstrip_past is_space (String "*" m)) by reflexivity.
  eexists. reflexivity.
Qed.

(** X7: a line is a marker line whatever white space precedes the marker
    and whatever follows it: indentation, trailing text and the line
    terminator do not matter. *)
Theorem marker_with_space_around (ws rest : string) :
  all_chars is_space ws = true ->
  is_parse1 (ws +:+ "*--*" +:+ rest) = true
  /\ is_parse2 (ws +:+ "*-*" +:+ rest) = true.
Proof.
  intros Hws. unfold is_parse1, is_parse2, startswith, PARSE1, PARSE2. split.
  - destruct (strip_chomp_marker ws "--" rest Hws) as [rest' E].
    change (ws +:+ "*--*" +:+ rest)
      with (ws +:+ String "*" ("--" +:+ String "*" rest)).
    rewrite E. destruct rest'; vm_compute; reflexivity.
  - destruct (strip_chomp_marker ws "-" rest Hws) as [rest' E].
    change (ws +:+ "*-*" +:+ rest)
      with (ws +:+ String "*" ("-" +:+ String "*" rest)).
    rewrite E. destruct rest'; vm_compute; reflexivity.
Qed.

Lemma marker_with_space_around_witness :
  is_parse1 ("  " +:+ "*--*" +:+ " common part") = true
  /\ is_parse2 ("  " +:+ "*-*" +:+ " common part") = true.
Proof.
  apply (marker_with_space_around "  " " common part"). reflexivity.
Defined.

End ParserMore.

(** * Further properties of the signal pipeline *)

Module SignalMore.
Import Signal SignalNotions SignalProps.

(** *** Shapes and failures, whatever the arithmetic *)

Lemma zip_with_max_nil (r x : list Z) :
  zip_with Z.max r x = [] <-> r = [] \/ x = [].
Proof.
  destruct r, x; simpl; split; intros H; auto; try discriminate.
  destruct H; discriminate.
Qed.

Lemma fold_max_nil (rs : list (list Z)) : forall r,
  fold_left (zip_with Z.max) rs r = [] <-> r = [] \/ [] ∈ rs.
Proof.
  induction rs as [|x rs IH]; intros r; simpl.
  - split; [auto | intros [?|Hin]; [assumption | inversion Hin]].
  - rewrite IH, zip_with_max_nil, elem_of_cons. intuition congruence.
Qed.

Lemma rmap_Ok {A B : Type} (f : A -> result B) (l : list A) (out : list B) :
  rmap f l = Ok out -> Forall2 (fun a b => f a = Ok b) l out.
Proof.
  revert out. induction l as [|a l IH]; intros out; simpl.
  - intros [= <-]. constructor.
  - destruct (f a) as [b|e] eqn:Ea; cbn [mbind result_bind rbind];
      [|discriminate].
    destruct (rmap f l) as [bs|e] eqn:El; cbn [mbind result_bind rbind];
      [|discriminate].
    intros [= <-]. constructor; auto.
Qed.

Lemma rmap_total {A B : Type} (f : A -> result B) (l : list A) :
  Forall (fun a => exists b, f a = Ok b) l -> exists out, rmap f l = Ok out.
Proof.
  induction 1 as [|a l [b Hb] _ [bs Hbs]]; simpl.
  - eexists. reflexivity.
  - rewrite Hb. cbn [mbind result_bind rbind]. rewrite Hbs.
    eexists. reflexivity.
Qed.

Lemma rmap_Raise {A B : Type} (f : A -> result B) (l : list A) (e : exn) :
  rmap f l = Raise e -> exists a, a ∈ l /\ f a = Raise e.
Proof.
  induction l as [|a l IH]; simpl; [discriminate|].
  destruct (f a) as [b|e'] eqn:Ea; cbn [mbind result_bind rbind].
  - destruct (rmap f l) as [bs|e''] eqn:El; cbn [mbind result_bind rbind];
      [discriminate|].
    intros [= <-]. destruct (IH eq_refl) as (a' & Hin & Ha').
    exists a'. split; [right; exact Hin | exact Ha'].
  - intros [= <-]. exists a. split; [left | exact Ea].
Qed.

Lemma rmap_fails {A B : Type} (f : A -> result B) (l : list A) a e :
  a ∈ l -> f a = Raise e -> exists e', rmap f l = Raise e'.
Proof.
  intros Hin Ha. induction l as [|x l IH]; [inversion Hin|]. simpl.
  destruct (f x) as [b|e'] eqn:Ex; cbn [mbind result_bind rbind];
    [|eexists; reflexivity].
  apply elem_of_cons in Hin as [->|Hin]; [congruence|].
  destruct (IH Hin) as [e' ->]. eexists. reflexivity.
Qed.

Section shapes.
Context {T : Type} `{Arith T}.

Lemma length_threshold_out (t : T) arr :
  length (threshold_out t arr) = length arr.
Proof. apply length_map. Qed.

Lemma process_image_cases (self : params T) (image : list (list Z)) :
  (degenerate image /\ process_image self image = Raise ValueError)
  \/ (~ degenerate image
      /\ exists p, process_image self image = Ok p
                /\ length (p_ut p) = _final_len self
                /\ length (p_flat p) = _final_len self
                /\ p_barcode p = create_barcode (p_flat p)).
Proof.
  unfold process_image, degenerate. destruct image as [|r rs]; simpl.
  - left. split; [left; reflexivity | reflexivity].
  - destruct (fold_left (zip_with Z.max) rs r) as [|c cols] eqn:E.
    + left. split; [|reflexivity].
      apply fold_max_nil in E as [->|Hin]; right; [left | right; exact Hin].
    + right. split.
      * intros [?|Hin]; [discriminate|].
        assert (fold_left (zip_with Z.max) rs r = []) as E'.
        { apply fold_max_nil. apply elem_of_cons in Hin as [<-|?]; auto. }
        congruence.
      * destruct (length_interp1d
                    (map (fun v => div (of_Z v) (_max_value self)) (c :: cols))
                    (_final_len self)) as (arr & Harr & Hlen);
          [simpl; lia|].
        rewrite Harr. cbn [mbind result_bind rbind].
        eexists. split; [reflexivity|]. cbn [p_ut p_flat p_barcode].
        rewrite length_threshold_out. auto.
Qed.

Lemma process_image_Ok (self : params T) image p :
  process_image self image = Ok p ->
  length (p_ut p) = _final_len self
  /\ length (p_flat p) = _final_len self
  /\ p_barcode p = create_barcode (p_flat p).
Proof.
  intros Hp. destruct (process_image_cases self image)
    as [[_ E] | [_ (p' & E & Hrest)]]; rewrite Hp in E.
  - discriminate.
  - injection E as <-. exact Hrest.
Qed.

Lemma process_Ok (self : params T) (Raw_data : list (list (list Z)))
    (ni flat ut : list (list T)) (bar : list (list (list T))) :
  _process self Raw_data = Ok (ni, flat, ut, bar) ->
  exists ps,
    Forall2 (fun image p => process_image self image = Ok p) Raw_data ps
    /\ ni = map p_ni ps /\ flat = map p_flat ps
    /\ ut = map p_ut ps /\ bar = map p_barcode ps.
Proof.
  unfold _process.
  destruct (rmap (process_image self) Raw_data) as [ps|e] eqn:E;
    cbn [mbind result_bind rbind]; [|discriminate].
  intros [= <- <- <- <-]. exists ps. apply rmap_Ok in E. auto.
Qed.

Lemma processed_all (self : params T) (Raw_data : list (list (list Z)))
    (ps : list (processed T)) :
  Forall2 (fun image p => process_image self image = Ok p) Raw_data ps ->
  Forall (fun p => length (p_ut p) = _final_len self
                   /\ length (p_flat p) = _final_len self
                   /\ p_barcode p = create_barcode (p_flat p)) ps.
Proof.
  induction 1 as [|image p Raw ps Hp _ IH]; constructor.
  - exact (process_image_Ok self image p Hp).
  - exact IH.
Qed.

(** X8: when [_process] returns, it returns four lists with one entry per
    image; every resampled vector, thresholded or not, has the configured
    final length, and every barcode stacks copies of the thresholded
    vector. *)
Theorem process_shapes (self : params T) (Raw_data : list (list (list Z)))
    (ni flat ut : list (list T)) (bar : list (list (list T))) :
  _process self Raw_data = Ok (ni, flat, ut, bar) ->
  length ni = length Raw_data
  /\ length flat = length Raw_data
  /\ length ut = length Raw_data
  /\ length bar = length Raw_data
  /\ Forall (fun v => length v = _final_len self) ut
  /\ Forall (fun v => length v = _final_len self) flat
  /\ bar = map create_barcode flat.
Proof.
  intros (ps & E & -> & -> & -> & ->)%process_Ok.
  pose proof (Forall2_length _ _ _ E) as Hlen.
  pose proof (processed_all self Raw_data ps E) as Hps.
  rewrite !length_map. repeat split; try (symmetry; exact Hlen).
  - apply Forall_fmap. eapply Forall_impl; [exact Hps|]. simpl. tauto.
  - apply Forall_fmap. eapply Forall_impl; [exact Hps|]. simpl. tauto.
  - rewrite map_map. apply map_ext_Forall.
    eapply Forall_impl; [exact Hps|]. simpl. tauto.
Qed.

(** X9: [_process] raises, and then raises ValueError, exactly when some
    image has no rows or has a row without pixels; otherwise it returns.
    No divisor, threshold or (natural) final length can make it fail. *)
Theorem process_fails_on_degenerate (self : params T)
    (Raw_data : list (list (list Z))) :
  (Exists degenerate Raw_data -> _process self Raw_data = Raise ValueError)
  /\ (~ Exists degenerate Raw_data ->
      exists out, _process self Raw_data = Ok out).
Proof.
  unfold _process. split.
  - intros (image & Hin & Hdeg)%Exists_exists.
    destruct (process_image_cases self image) as [[_ E] | [Hnot _]];
      [|contradiction].
    destruct (rmap_fails (process_image self) Raw_data image _ Hin E)
      as [e' He'].
    rewrite He'. cbn [mbind result_bind rbind].
    apply rmap_Raise in He' as (a & _ & Ha).
    destruct (process_image_cases self a) as [[_ Ea] | [_ (p & Ea & _)]];
      congruence.
  - intros Hnone.
    destruct (rmap_total (process_image self) Raw_data) as [ps Hps].
    { apply Forall_forall. intros image Hin.
      destruct (process_image_cases self image) as [[Hdeg _] | [_ (p & E & _)]].
      - exfalso. apply Hnone, Exists_exists. eauto.
      - eauto. }
    rewrite Hps. cbn [mbind result_bind rbind]. eexists. reflexivity.
Qed.

(** X10: a barcode is never empty: it has one row for every twenty
    elements of the vector, and one row when the vector is shorter than
    twenty; every row is the vector itself. *)
Theorem barcode_shape (arr : list T) :
  length (create_barcode arr) = Nat.max 1 (length arr / 20)
  /\ Forall (fun row => row = arr) (create_barcode arr).
Proof.
  unfold create_barcode. split.
  - rewrite repeat_length. destruct (Nat.leb_spec 20 (length arr)) as [Hge|Hlt].
    + assert (1 <= length arr / 20)%nat
        by (apply Nat.div_le_lower_bound; lia).
      lia.
    + rewrite Nat.div_small by lia. reflexivity.
  - apply Forall_forall. intros row Hrow. apply list_elem_of_In in Hrow.
    eapply repeat_spec, Hrow.
Qed.

End shapes.

Lemma process_shapes_witness :
  length [[0x0p+0; 0x1.fffdfffdfffep-3; 0x1.fffdfffdfffep-2;
           0x1.7fff7fff7fff8p-1; 0x1p+0]%float] = 1%nat
  /\ Forall (fun v : list float => length v = 5%nat)
       [[0x0p+0; 0x1.fffdfffdfffep-3; 0x1.fffdfffdfffep-2;
         0x1.7fff7fff7fff8p-1; 0x1p+0]%float].
Proof.
  destruct (process_shapes scenario_params64 [scenario_image]
              [[0; 0x1.fffdfffdfffep-2; 1]%float]
              [[0; 0; 0; 0x1.7fff7fff7fff8p-1; 1]%float]
              [[0x0p+0; 0x1.fffdfffdfffep-3; 0x1.fffdfffdfffep-2;
                0x1.7fff7fff7fff8p-1; 0x1p+0]%float]
              [[[0; 0; 0; 0x1.7fff7fff7fff8p-1; 1]%float]])
    as (_ & _ & Hut & _ & Hlen & _); [vm_compute; reflexivity|].
  split; [exact Hut | exact Hlen].
Defined.

Lemma process_fails_on_degenerate_witness :
  _process scenario_params64 [scenario_image; []] = Raise ValueError.
Proof.
  apply (process_fails_on_degenerate scenario_params64 [scenario_image; []]).
  apply Exists_cons_tl, Exists_cons_hd. left. reflexivity.
Defined.

(** *** Bounds, in exact arithmetic *)

Lemma chord_ge (lo x x0 x1 f0 f1 : Q) :
  (x0 <= x)%Q -> (x < x1)%Q -> (lo <= f0)%Q -> (lo <= f1)%Q ->
  (lo <= (f1 - f0) / (x1 - x0) * (x - x0) + f0)%Q.
Proof.
  intros H0 H1 Hf0 Hf1.
  assert ((f1 - f0) / (x1 - x0) * (x1 - x0) == f1 - f0)%Q as Hs
    by (field; lra).
  set (s := ((f1 - f0) / (x1 - x0))%Q) in *.
  destruct (Qlt_le_dec s 0) as [Hneg|Hpos].
  - assert (0 <= (0 - s) * (x1 - x))%Q
      by (apply Qmult_le_0_compat; lra).
    lra.
  - assert (0 <= s * (x - x0))%Q by (apply Qmult_le_0_compat; lra).
    lra.
Qed.

Lemma chord_le (hi x x0 x1 f0 f1 : Q) :
  (x0 <= x)%Q -> (x < x1)%Q -> (f0 <= hi)%Q -> (f1 <= hi)%Q ->
  ((f1 - f0) / (x1 - x0) * (x - x0) + f0 <= hi)%Q.
Proof.
  intros H0 H1 Hf0 Hf1.
  assert ((f1 - f0) / (x1 - x0) * (x1 - x0) == f1 - f0)%Q as Hs
    by (field; lra).
  set (s := ((f1 - f0) / (x1 - x0))%Q) in *.
  destruct (Qlt_le_dec s 0) as [Hneg|Hpos].
  - assert (0 <= (0 - s) * (x - x0))%Q
      by (apply Qmult_le_0_compat; lra).
    lra.
  - assert (0 <= s * (x1 - x))%Q by (apply Qmult_le_0_compat; lra).
    lra.
Qed.

Section invariant.
(** A property of numbers that chords between two numbers having it
    keep. *)
Variable P : Q -> Prop.
Hypothesis P_chord : forall x x0 x1 f0 f1 : Q,
  (x0 <= x)%Q -> (x < x1)%Q -> P f0 -> P f1 ->
  P ((f1 - f0) / (x1 - x0) * (x - x0) + f0)%Q.

Lemma locate_keeps (xp : list Q) : forall (fp : list Q) (x x0 f0 : Q),
  (x0 <= x)%Q -> P f0 -> Forall P fp -> P (locate x x0 f0 xp fp).
Proof.
  induction xp as [|x1 xp IH]; intros fp x x0 f0 Hx Hf0 Hfp;
    cbn [locate]; [exact Hf0|].
  destruct fp as [|f1 fp]; [exact Hf0|].
  apply Forall_cons_1 in Hfp as [Hf1 Hfp].
  cbn [ltb eqb add sub mul div Q_arith].
  destruct (Qlt_bool x x1) eqn:E.
  - destruct (Qeq_bool x0 x); [exact Hf0|].
    apply P_chord; auto. apply Qlt_bool_iff, E.
  - apply IH; auto.
    apply Qnot_lt_le. intros Hlt. apply Qlt_bool_iff in Hlt. congruence.
Qed.

Lemma last_keeps (fp : list Q) (f0 : Q) :
  P f0 -> Forall P fp -> P (List.last fp f0).
Proof.
  intros Hf0 Hfp. revert f0 Hf0.
  induction Hfp as [|f fp Hf _ IH]; intros f0 Hf0; [exact Hf0|].
  destruct fp; [exact Hf | apply IH, Hf0].
Qed.

Lemma interp_keeps (xs xp fp r : list Q) :
  interp xs xp fp = Ok r -> Forall P fp -> Forall P r.
Proof.
  unfold interp. destruct xp as [|x0 xp]; [discriminate|].
  destruct fp as [|f0 fp]; [discriminate|].
  destruct (negb _); [discriminate|].
  intros [= <-] [Hf0 Hfp]%Forall_cons_1.
  apply Forall_fmap, Forall_forall. intros x _.
  cbn [ltb Q_arith]. simpl.
  destruct (Qlt_bool (List.last xp x0) x); [apply last_keeps; assumption|].
  destruct (Qlt_bool x x0) eqn:E; [exact Hf0|].
  apply locate_keeps; auto.
  apply Qnot_lt_le. intros Hlt. apply Qlt_bool_iff in Hlt. congruence.
Qed.

Lemma interp1d_keeps (v : list Q) (F : nat) (r : list Q) :
  _interp1d v F = Ok r -> Forall P v -> Forall P r.
Proof. unfold _interp1d. apply interp_keeps. Qed.

End invariant.

(** X11: resampling never overshoots: when every number of the vector
    lies between two bounds, so does every number of the resampled
    vector, whatever the target length. *)
Theorem resample_within (lo hi : Q) (v : list Q) (F : nat) (r : list Q) :
  _interp1d v F = Ok r -> within lo hi v -> within lo hi r.
Proof.
  unfold within. apply interp1d_keeps.
  intros x x0 x1 f0 f1 H0 H1 [Hl0 Hh0] [Hl1 Hh1]. split.
  - apply chord_ge; assumption.
  - apply chord_le; assumption.
Qed.

Lemma resample_within_witness :
  within 0 1
    [0; 65534 # 262140; 32767 # 65535; 12884443140 # 17179344900; 1]%Q.
Proof.
  apply (resample_within 0 1 [0; 32767 # 65535; 1]%Q 5).
  - vm_compute. reflexivity.
  - repeat constructor; discriminate.
Defined.

(** *** The normalised range *)

Lemma zip_with_max_keeps (P : Z -> Prop) (a b : list Z) :
  Forall P a -> Forall P b -> Forall P (zip_with Z.max a b).
Proof.
  intros Ha. revert b. induction Ha as [|x a Hx _ IH]; intros b Hb;
    [constructor|].
  destruct Hb as [|y b Hy Hb]; simpl; constructor; [|apply IH, Hb].
  destruct (Z.max_spec x y) as [[_ ->]|[_ ->]]; assumption.
Qed.

Lemma max_axis0_keeps (P : Z -> Prop) (image : list (list Z)) cols :
  max_axis0 image = Ok cols -> Forall (Forall P) image -> Forall P cols.
Proof.
  unfold max_axis0. destruct image as [|r rs]; [discriminate|].
  intros [= <-] [Hr Hrs]%Forall_cons_1. revert r Hr.
  induction Hrs as [|x rs Hx _ IH]; intros r Hr; simpl; [exact Hr|].
  apply IH, zip_with_max_keeps; assumption.
Qed.

Lemma threshold_out_within (t : Q) (arr : list Q) :
  within 0 1 arr -> within 0 1 (threshold_out t arr).
Proof.
  unfold within, threshold_out. intros Harr.
  apply Forall_fmap. eapply Forall_impl; [exact Harr|].
  intros v Hv. cbn [compose ltb of_Z Q_arith].
  destruct (Qlt_bool v t); [|exact Hv].
  change (inject_Z 0) with 0%Q. split; lra.
Qed.

(** X12: when the divisor is positive and no pixel is negative or above
    the divisor, the raw vector, the resampled vector and the thresholded
    vector all lie between 0 and 1, whatever the threshold and the final
    length. *)
Theorem processed_in_unit_range (self : params Q) (image : list (list Z))
    (p : processed Q) :
  (0 < _max_value self)%Q ->
  pixels_within (_max_value self) image ->
  process_image self image = Ok p ->
  within 0 1 (p_ni p) /\ within 0 1 (p_ut p) /\ within 0 1 (p_flat p).
Proof.
  intros Hmax Hpix. unfold process_image.
  destruct (max_axis0 image) as [cols|e] eqn:Ecols;
    cbn [mbind result_bind rbind]; [|discriminate].
  set (arr := map (fun v => div (of_Z v) (_max_value self)) cols).
  destruct (_interp1d arr (_final_len self)) as [arr_int|e] eqn:Eint;
    cbn [mbind result_bind rbind]; [|discriminate].
  intros [= <-]. cbn [p_ni p_ut p_flat].
  assert (within 0 1 arr) as Harr.
  { unfold within, arr. apply Forall_fmap.
    eapply Forall_impl;
      [exact (max_axis0_keeps _ image cols Ecols Hpix)|].
    intros z [Hz Hle]. cbn [div of_Z Q_arith compose]. simpl. split.
    - apply Qle_shift_div_l; [exact Hmax|].
      rewrite Qmult_0_l. change 0%Q with (inject_Z 0).
      rewrite <- Zle_Qle. exact Hz.
    - apply Qle_shift_div_r; [exact Hmax|].
      rewrite Qmult_1_l. exact Hle. }
  assert (within 0 1 arr_int) as Hint.
  { revert Harr. unfold within. apply (interp1d_keeps _) with (F := _final_len self);
      [|exact Eint].
    intros x x0 x1 f0 f1 H0 H1 [Hl0 Hh0] [Hl1 Hh1]. split.
    - apply chord_ge; assumption.
    - apply chord_le; assumption. }
  split; [exact Harr|]. split; [exact Hint|].
  apply threshold_out_within, Hint.
Qed.

Lemma processed_in_unit_range_witness :
  match process_image scenario_params scenario_image with
  | Ok p => within 0 1 (p_ni p) /\ within 0 1 (p_ut p) /\ within 0 1 (p_flat p)
  | Raise _ => True
  end.
Proof.
  destruct (process_image scenario_params scenario_image) as [p|e] eqn:E;
    [|exact I].
  apply (processed_in_unit_range scenario_params scenario_image p).
  - reflexivity.
  - repeat constructor; discriminate.
  - exact E.
Defined.

(** X13: with the default threshold 0, a positive divisor and no negative
    pixel, thresholding changes nothing: the thresholded vector is the
    resampled vector. *)
Theorem zero_threshold_keeps_signal (max_value : Q) (final_len : nat)
    (self : params Q) (image : list (list Z)) (p : processed Q) :
  (0 < max_value)%Q ->
  init_params max_value 0%Q final_len = Ok self ->
  Forall (Forall (fun z => (0 <= z)%Z)) image ->
  process_image self image = Ok p ->
  p_flat p = p_ut p.
Proof.
  intros Hmax Hself Hpix. unfold init_params in Hself.
  destruct (eqb max_value (of_Z 0)); [discriminate|].
  injection Hself as <-. unfold process_image. cbn [_max_value _final_len
    _threshold].
  destruct (max_axis0 image) as [cols|e] eqn:Ecols;
    cbn [mbind result_bind rbind]; [|discriminate].
  set (arr := map (fun v => div (of_Z v) max_value) cols).
  destruct (_interp1d arr final_len) as [arr_int|e] eqn:Eint;
    cbn [mbind result_bind rbind]; [|discriminate].
  intros [= <-]. cbn [p_ut p_flat].
  assert (Forall (fun y => 0 <= y)%Q arr) as Harr.
  { unfold arr. apply Forall_fmap.
    eapply Forall_impl;
      [exact (max_axis0_keeps _ image cols Ecols Hpix)|].
    intros z Hz. cbn [div of_Z Q_arith compose].
    apply Qle_shift_div_l; [exact Hmax|].
    rewrite Qmult_0_l. change 0%Q with (inject_Z 0).
    rewrite <- Zle_Qle. exact Hz. }
  assert (Forall (fun y => 0 <= y)%Q arr_int) as Hint.
  { apply (interp1d_keeps (fun y => 0 <= y)%Q) with (v := arr) (F := final_len);
      [|exact Eint|exact Harr].
    intros x x0 x1 f0 f1 H0 H1 Hf0 Hf1. apply chord_ge; assumption. }
  unfold threshold_out. rewrite <- (map_id arr_int) at 2.
  apply map_ext_Forall. eapply Forall_impl; [exact Hint|].
  intros v Hv. cbn [ltb div of_Z Q_arith].
  rewrite Qlt_bool_false; [reflexivity|].
  assert (0 / max_value == 0)%Q as -> by (field; lra). exact Hv.
Qed.

Lemma zero_threshold_keeps_signal_witness :
  match process_image (mk_params 65535%Q 5 (0 / 65535)%Q) scenario_image with
  | Ok p => p_flat p = p_ut p
  | Raise _ => True
  end.
Proof.
  destruct (process_image (mk_params 65535%Q 5 (0 / 65535)%Q) scenario_image)
    as [p|e] eqn:E; [|exact I].
  apply (zero_threshold_keeps_signal 65535%Q 5
           (mk_params 65535%Q 5 (0 / 65535)%Q) scenario_image p).
  - reflexivity.
  - reflexivity.
  - repeat constructor; discriminate.
  - exact E.
Defined.

(** *** End points *)

Lemma sample_at_knot (f0 : Q) (fp' : list Q) (x : Q) (i : nat) :
  (x == nat_Q i)%Q -> (i <= length fp')%nat ->
  (f0 :: fp') !! i
  = Some (if ltb (List.last (map nat_Q (seq 1 (length fp'))) (nat_Q 0)) x
          then List.last fp' f0
          else if ltb x (nat_Q 0) then f0
               else locate x (nat_Q 0) f0
                      (map nat_Q (seq 1 (length fp'))) fp').
Proof.
  intros Hx Hi. rewrite last_knot. cbn [ltb Q_arith].
  rewrite (Qlt_bool_false (nat_Q (length fp')) x)
    by (rewrite Hx; apply nat_Q_le, Hi).
  rewrite (Qlt_bool_false x (nat_Q 0))
    by (rewrite Hx; apply nat_Q_le; lia).
  apply locate_at_knot; [exact Hx | exact Hi].
Qed.

(** X14: resampling keeps the end points: for a target length of at least
    one the first sample is the first element of the vector, and for a
    target length of at least two the last sample is its last element. *)
Theorem resample_end_points (v : list Q) (F : nat) (r : list Q) :
  (1 <= F)%nat ->
  _interp1d v F = Ok r ->
  head r = head v /\ ((2 <= F)%nat -> last r = last v).
Proof.
  intros HF. destruct v as [|f0 fp']; [discriminate|].
  unfold _interp1d. cbn [length]. rewrite arange_succ.
  cbn [interp]. rewrite length_map, length_seq, Nat.eqb_refl. cbn [negb].
  intros [= <-].
  change (@of_Z Q Q_arith 0) with 0%Q.
  change (sub (of_nat (S (length fp'))) (of_Z 1))
    with (nat_Q (S (length fp')) - 1)%Q.
  assert (nat_Q (S (length fp')) - 1 == nat_Q (length fp'))%Q as Hstop.
  { unfold nat_Q. rewrite Nat2Z.inj_succ, <- Z.add_1_r.
    rewrite inject_Z_plus. simpl. ring. }
  destruct F as [|[|F]]; [lia| |].
  - cbn [linspace map head]. split; [|lia].
    symmetry. apply (sample_at_knot f0 fp' 0%Q 0); [reflexivity | lia].
  - cbn [linspace]. split.
    + cbn [seq map app head]. symmetry.
      apply (sample_at_knot f0 fp' _ 0%nat); [|lia].
      unfold of_nat. cbn [add sub mul div of_Z Q_arith Z.of_nat].
      unfold nat_Q. simpl (inject_Z (Z.of_nat 0)). ring.
    + intros _. rewrite map_app. cbn [map].
      rewrite last_snoc, last_lookup. cbn [length Nat.pred].
      symmetry. apply sample_at_knot; [exact Hstop | lia].
Qed.

Lemma resample_end_points_witness :
  head [1 # 2; 11 # 4; 7]%Q = head [1 # 2; 5; 1 # 2; 7]%Q
  /\ ((2 <= 3)%nat -> last [1 # 2; 11 # 4; 7]%Q = last [1 # 2; 5; 1 # 2; 7]%Q).
Proof.
  apply (resample_end_points [1 # 2; 5; 1 # 2; 7]%Q 3).
  - lia.
  - vm_compute. reflexivity.
Defined.

(** *** Thresholds *)

(** X15: thresholding is monotone and idempotent: an element that is
    zero after thresholding at some level is zero after thresholding at
    any higher level, and thresholding twice at one level is thresholding
    once. *)
Theorem threshold_monotone (t1 t2 : Q) (arr : list Q) :
  (t1 <= t2)%Q ->
  Forall2 (fun a b => (a == 0)%Q -> (b == 0)%Q)
    (threshold_out t1 arr) (threshold_out t2 arr)
  /\ threshold_out t1 (threshold_out t1 arr) = threshold_out t1 arr.
Proof.
  intros Ht. unfold threshold_out. split.
  - induction arr as [|v arr IH]; cbn [map]; constructor; [|exact IH].
    cbn [ltb of_Z Q_arith]. change (inject_Z 0) with 0%Q.
    destruct (Qlt_bool v t1) eqn:E1; destruct (Qlt_bool v t2) eqn:E2;
      intros Hz; try reflexivity; try exact Hz.
    apply Qlt_bool_iff in E1.
    assert (Qlt_bool v t2 = true) by (apply Qlt_bool_iff; lra). congruence.
  - rewrite map_map. apply map_ext. intros v.
    cbn [ltb of_Z Q_arith]. change (inject_Z 0) with 0%Q.
    destruct (Qlt_bool v t1) eqn:E1; [|rewrite E1; reflexivity].
    destruct (Qlt_bool 0 t1); reflexivity.
Qed.

Lemma threshold_monotone_witness :
  Forall2 (fun a b => (a == 0)%Q -> (b == 0)%Q)
    (threshold_out (1 # 4) [1 # 8; 1 # 2; 3 # 4]%Q)
    (threshold_out (6 # 10) [1 # 8; 1 # 2; 3 # 4]%Q)
  /\ threshold_out (1 # 4) (threshold_out (1 # 4) [1 # 8; 1 # 2; 3 # 4]%Q)
     = threshold_out (1 # 4) [1 # 8; 1 # 2; 3 # 4]%Q.
Proof.
  apply (threshold_monotone (1 # 4) (6 # 10) [1 # 8; 1 # 2; 3 # 4]%Q).
  unfold Qle. simpl. lia.
Defined.

End SignalMore.

(** * Further properties of the table merge *)

Module FrameMore.
Import Frame FrameNotions FrameProps.

Section frame.
Context {V : Type} `{EqDecision V}.
Implicit Types (df old : DataFrame V) (row : list (@cell V)).

(** *** Shape of the merged table *)




Lemma keep_last_length_le {A : Type} (key : A -> @cell V) (l : list A) :
  (length (keep_last key l) <= length l)%nat.
Proof.
  induction l as [|x l IH]; simpl; [lia|].
  destruct (decide (key x ∈ key <$> l)); simpl; lia.
Qed.

(** X17: the merged table has as many rows as there are distinct
    identifiers in the two tables together, hence no more rows than the
    two tables have together. *)
Theorem merge_row_count (old df m : DataFrame V) :
  merge old df = Ok m ->
  length (values m) = length (remove_dups (ids old ++ ids df))
  /\ (length (values m) <= length (values old) + length (values df))%nat.
Proof.
  rewrite merge_unfold. cbn zeta.
  destruct (decide ("ID" ∈ union_columns (columns old) (columns df)))
    as [Hid|]; [|discriminate].
  intros [= <-]. cbn [values].
  set (cols := union_columns (columns old) (columns df)) in *.
  assert (length (keep_last (id_of cols) (stacked old df))
          = length (remove_dups (ids old ++ ids df))) as Hlen.
  { rewrite <- (length_fmap (id_of cols)).
    apply Permutation_length, NoDup_Permutation.
    - apply keep_last_NoDup.
    - apply NoDup_remove_dups.
    - intros k. rewrite keep_last_keys, elem_of_remove_dups.
      unfold cols. rewrite stacked_ids by exact Hid. reflexivity. }
  split; [exact Hlen|].
  etransitivity; [apply keep_last_length_le|].
  unfold stacked. cbn zeta. rewrite length_app, !length_fmap. reflexivity.
Qed.

(** *** Successive merges *)

Lemma union_columns_assoc (a b c : list string) :
  union_columns (union_columns a b) c = union_columns a (union_columns b c).
Proof.
  unfold union_columns.
  rewrite filter_app, <- app_assoc. f_equal. f_equal.
  rewrite list_filter_filter. apply list_filter_iff. intros x.
  rewrite elem_of_app, list_elem_of_filter.
  destruct (decide (x ∈ a)); tauto.
Qed.

Lemma reindex_compose (cols mid target : list string) row :
  cols ⊆ mid ->
  reindex mid target (reindex cols mid row) = reindex cols target row.
Proof.
  intros Hsub. unfold reindex at 1 3. apply list_fmap_ext. intros i c _.
  unfold reindex. rewrite get_cell_fmap.
  destruct (decide (c ∈ mid)) as [|Hc]; [reflexivity|].
  symmetry. apply get_cell_absent. intros Hin. apply Hc, Hsub, Hin.
Qed.

Lemma union_columns_l (a b : list string) : a ⊆ union_columns a b.
Proof. intros c Hc. apply elem_of_union_columns. left. exact Hc. Qed.

Lemma union_columns_r (a b : list string) : b ⊆ union_columns a b.
Proof. intros c Hc. apply elem_of_union_columns. right. exact Hc. Qed.

Lemma keep_last_twice {A : Type} (key : A -> @cell V) (l1 l2 : list A) :
  keep_last key (keep_last key l1 ++ l2) = keep_last key (l1 ++ l2).
Proof.
  rewrite !keep_last_app.
  rewrite (keep_last_of_NoDup key (keep_last key l1))
    by apply keep_last_NoDup.
  reflexivity.
Qed.

(** X18: two successive merges amount to one merge of the two new tables
    put end to end: when merging the first new table succeeds, merging the
    second into the result gives what merging their concatenation into the
    existing table gives, columns, row labels and rows alike. *)
Theorem merge_in_two_steps (old d1 d2 m1 : DataFrame V) :
  merge old d1 = Ok m1 ->
  merge m1 d2 = merge old (concat d1 d2).
Proof.
  rewrite merge_unfold. cbn zeta.
  destruct (decide ("ID" ∈ union_columns (columns old) (columns d1)))
    as [Hid1|]; [|discriminate].
  intros [= <-]. rewrite !merge_unfold. cbn [columns values concat]. cbn zeta.
  rewrite union_columns_assoc.
  set (a := columns old) in *. set (b := columns d1) in *.
  set (c := columns d2) in *.
  set (U1 := union_columns a b) in *.
  set (U := union_columns a (union_columns b c)).
  assert (U1 ⊆ U) as HU1.
  { unfold U, U1. rewrite <- union_columns_assoc. apply union_columns_l. }
  assert ("ID" ∈ U) as Hid by (apply HU1, Hid1).
  rewrite !decide_True by exact Hid.
  assert (keep_last (id_of U)
            (stacked (mk_frame U1
                        (seq 0 (length (keep_last (id_of U1) (stacked old d1))))
                        (keep_last (id_of U1) (stacked old d1))) d2)
          = keep_last (id_of U)
              (stacked old
                 (mk_frame (union_columns b c)
                    (seq 0 (length ((reindex b (union_columns b c) <$> values d1)
                                    ++ (reindex c (union_columns b c)
                                          <$> values d2))))
                    ((reindex b (union_columns b c) <$> values d1)
                     ++ (reindex c (union_columns b c) <$> values d2)))))
    as ->; [|reflexivity].
  unfold stacked. cbn [columns values]. cbn zeta.
  fold a b c. fold U1.
  replace (union_columns U1 c) with U
    by (unfold U, U1; symmetry; apply union_columns_assoc).
  fold U.
  (* the rows of the first merge, laid out over all columns *)
  rewrite <- (keep_last_ext (id_of U ∘ reindex U1 U) (id_of U1))
    by (intros; apply id_of_reindex, Hid).
  rewrite <- keep_last_fmap, keep_last_twice.
  f_equal. rewrite !fmap_app, <- !list_fmap_compose, <- app_assoc.
  f_equal; [|f_equal].
  - apply list_fmap_ext. intros i row _. simpl.
    apply reindex_compose, union_columns_l.
  - apply list_fmap_ext. intros i row _. simpl.
    rewrite (reindex_compose b U1) by apply union_columns_r.
    rewrite (reindex_compose b (union_columns b c)) by apply union_columns_l.
    reflexivity.
  - apply list_fmap_ext. intros i row _. simpl.
    symmetry. apply reindex_compose, union_columns_r.
Qed.

(** *** Merging nothing *)

Lemma reindex_same (cols : list string) : forall row,
  NoDup cols -> length row = length cols -> reindex cols cols row = row.
Proof.
  unfold reindex. induction cols as [|c cols IH]; intros row Hnd Hlen.
  - destruct row; [reflexivity | discriminate].
  - destruct row as [|x row]; [discriminate|].
    apply NoDup_cons in Hnd as [Hc Hnd]. injection Hlen as Hlen.
    rewrite fmap_cons. cbn [get_cell]. rewrite decide_True by reflexivity.
    f_equal. transitivity (get_cell cols row <$> cols);
      [|apply IH; assumption].
    apply list_fmap_ext. intros i c' Hc'.
    rewrite decide_False; [reflexivity|].
    intros ->. apply Hc. eapply list_elem_of_lookup_2, Hc'.
Qed.

Lemma union_columns_sub (a b : list string) : b ⊆ a -> union_columns a b = a.
Proof.
  intros Hsub. unfold union_columns.
  assert (filter (fun c => c ∉ a) b = []) as ->; [|apply app_nil_r].
  apply elem_of_nil_inv. intros c [Hc Hin]%list_elem_of_filter.
  apply Hc, Hsub, Hin.
Qed.

(** X19: merging a new table that has no rows and no column of its own
    into a table with the identifier column, distinct column labels, one
    cell per column in every row and no repeated identifier leaves the
    columns and the rows as they are; only the row labels are renumbered. *)
Theorem merge_nothing (old df : DataFrame V) :
  "ID" ∈ columns old ->
  columns df ⊆ columns old ->
  values df = [] ->
  NoDup (columns old) ->
  Forall (fun row => length row = length (columns old)) (values old) ->
  NoDup (ids old) ->
  merge old df
  = Ok (mk_frame (columns old) (seq 0 (length (values old))) (values old)).
Proof.
  intros Hid Hsub Hempty Hcols Hrows Hids. rewrite merge_unfold. cbn zeta.
  rewrite (union_columns_sub _ _ Hsub), decide_True by exact Hid.
  assert (stacked old df = values old) as ->.
  { unfold stacked. cbn zeta.
    rewrite (union_columns_sub _ _ Hsub), Hempty, fmap_nil, app_nil_r.
    rewrite <- (list_fmap_id (values old)) at 2.
    apply Forall_fmap_ext. eapply Forall_impl; [exact Hrows|].
    intros row Hrow. apply reindex_same; assumption. }
  rewrite (keep_last_of_NoDup (id_of (columns old))) by exact Hids.
  reflexivity.
Qed.

End frame.

(** *** The examples *)

Ltac by_decide :=
  match goal with
  | |- ?P => apply (@bool_decide_unpack P _); vm_compute; exact I
  end.


Lemma merge_row_count_witness :
  length [[Some "3"; Some "z"]; [Some "1"; Some "v_new"]; [Some "2"; Some "q"]]
  = length (remove_dups (ids old_table ++ ids new_table)).
Proof.
  destruct (merge_row_count old_table new_table
              (mk_frame ["ID"; "v"] [0; 1; 2]%nat
                 [[Some "3"; Some "z"]; [Some "1"; Some "v_new"];
                  [Some "2"; Some "q"]]))
    as (Hcount & _); [vm_compute; reflexivity|].
  exact Hcount.
Defined.

Lemma merge_in_two_steps_witness :
  merge (mk_frame ["ID"; "v"] [0; 1; 2]%nat
           [[Some "3"; Some "z"]; [Some "1"; Some "v_new"];
            [Some "2"; Some "q"]])
        anonymous_table
  = merge old_table (concat new_table anonymous_table).
Proof.
  apply (merge_in_two_steps old_table new_table anonymous_table).
  vm_compute. reflexivity.
Defined.

Lemma merge_nothing_witness :
  merge old_table (mk_frame ["v"] [] [])
  = Ok (mk_frame ["ID"; "v"] [0; 1]%nat
          [[Some "1"; Some "v_old"]; [Some "3"; Some "z"]]).
Proof.
  apply (merge_nothing old_table (mk_frame ["v"] [] [])).
  - by_decide.
  - intros c Hc. apply list_elem_of_singleton in Hc as ->. by_decide.
  - reflexivity.
  - by_decide.
  - by_decide.
  - by_decide.
Defined.

End FrameMore.

(** * Properties of [__init__] and [_gen_raw_arrays] *)

Module KeemPlotInitProps.
Import PyStr RmeParser Signal KeemPlotInit SignalMore.

(** *** The path *)

Lemma last_char_snoc (s : string) (c : ascii) :
  last_char (s +:+ String c "") = Some c.
Proof.
  induction s as [|x s IH]; [reflexivity|].
  change (String x s +:+ String c "") with (String x (s +:+ String c "")).
  cbn [last_char]. rewrite IH.
  destruct s; reflexivity.
Qed.

Lemma last_char_None (s : string) : last_char s = None -> s = "".
Proof.
  induction s as [|x s IH]; [reflexivity|]. cbn [last_char].
  destruct s as [|y s]; [discriminate|]. intros H. apply IH in H.
  discriminate.
Qed.

(** X20: the empty path makes [__init__] raise IndexError at its first
    statement; every other path is given a final slash if it has none,
    once: the result ends with a slash and is left alone when it goes
    through the same statement again. *)
Theorem with_slash_spec (path : string) :
  (path = "" -> with_slash path = Raise IndexError)
  /\ (path <> "" ->
      exists p, with_slash path = Ok p
                /\ last_char p = Some "/"%char
                /\ with_slash p = Ok p
                /\ (p = path \/ p = path +:+ "/")).
Proof.
  split; [intros ->; reflexivity|].
  intros Hne. unfold with_slash at 1.
  destruct (last_char path) as [c|] eqn:E;
    [|apply last_char_None in E; contradiction].
  destruct (Ascii.eqb_spec c "/") as [->|Hc].
  - exists path. repeat split; auto.
    unfold with_slash. rewrite E. reflexivity.
  - exists (path +:+ "/"). repeat split; auto.
    + apply last_char_snoc.
    + unfold with_slash. rewrite last_char_snoc. reflexivity.
Qed.

Lemma with_slash_spec_witness :
  exists p, with_slash "data" = Ok p
            /\ last_char p = Some "/"%char
            /\ with_slash p = Ok p
            /\ (p = "data" \/ p = "data" +:+ "/").
Proof. apply (with_slash_spec "data"). discriminate. Defined.

(** *** The images *)

Lemma rmap_ext_in {A B : Type} (f g : A -> result B) (l : list A) :
  (forall a, In a l -> f a = g a) -> rmap f l = rmap g l.
Proof.
  induction l as [|a l IH]; intros Hext; simpl; [reflexivity|].
  rewrite (Hext a) by (left; reflexivity).
  rewrite IH by (intros; apply Hext; right; assumption). reflexivity.
Qed.

(** X21: [_gen_raw_arrays] never decodes a hidden entry or a text file
    (the README among them): what it returns depends on the listing and on
    the decoding of the other entries only. *)
Theorem hidden_and_text_files_not_decoded (fs fs' : files) (path : string) :
  listdir fs path = listdir fs' path ->
  (forall name, is_image_name name = true ->
                imread fs (path +:+ name) = imread fs' (path +:+ name)) ->
  is_image_name "README.txt" = false
  /\ _gen_raw_arrays fs path = _gen_raw_arrays fs' path.
Proof.
  intros Hlist Himg. split; [reflexivity|].
  unfold _gen_raw_arrays. rewrite <- Hlist.
  destruct (listdir fs path) as [names|e]; [|reflexivity].
  cbn [mbind result_bind rbind]. apply rmap_ext_in.
  intros name Hin. unfold image_names in Hin.
  apply filter_In in Hin as [_ Hname]. rewrite (Himg name Hname).
  reflexivity.
Qed.

Lemma hidden_and_text_files_not_decoded_witness :
  _gen_raw_arrays example_files "data/"
  = _gen_raw_arrays
      (mk_files (read_text example_files) (listdir example_files)
         (fun p => if String.eqb p "data/README.txt" then Ok []
                   else imread example_files p))
      "data/".
Proof.
  apply (hidden_and_text_files_not_decoded example_files
           (mk_files (read_text example_files) (listdir example_files)
              (fun p => if String.eqb p "data/README.txt" then Ok []
                        else imread example_files p))
           "data/").
  - reflexivity.
  - intros name Hname. cbn [imread].
    destruct (String.eqb_spec ("data/" +:+ name) "data/README.txt")
      as [E|_]; [|reflexivity].
    change "data/README.txt" with ("data/" +:+ "README.txt") in E.
    apply (inj (String.append "data/")) in E. subst name.
    vm_compute in Hname. discriminate Hname.
Defined.

(** *** The whole of [__init__] *)

Section init.
Context {T : Type} `{Arith T}.

Lemma gen_raw_arrays_length (fs : files) (path : string) raw :
  _gen_raw_arrays fs path = Ok raw ->
  exists names, listdir fs path = Ok names
                /\ length raw = length (image_names names).
Proof.
  unfold _gen_raw_arrays. destruct (listdir fs path) as [names|e];
    cbn [mbind result_bind rbind]; [|discriminate].
  intros E. exists names. split; [reflexivity|].
  apply rmap_Ok, Forall2_length in E. symmetry. exact E.
Qed.

(** X22: when [__init__] returns, the header and the group are those
    parsed from the README of the directory, and there is one vector of
    each kind per image entry of the directory (hidden entries and text
    files apart), each resampled vector of the final length. The number
    of rows of the group plays no part: nothing compares it with the
    number of images. *)
Theorem init_returns (fs : files) (path : string) (group_number : Z)
    (max_value threshold : T) (final_len : nat) (k : keemplot T) :
  __init__ fs path group_number max_value threshold final_len = Ok k ->
  exists dir text names,
    with_slash path = Ok dir
    /\ read_text fs (dir +:+ "README.txt") = Ok text
    /\ kp_header k = fst (rme_parser text)
    /\ KeemPlot.dbdata (snd (rme_parser text)) group_number = Ok (kp_dbdata k)
    /\ listdir fs dir = Ok names
    /\ length (flatdata_ni k) = length (image_names names)
    /\ length (flatdata k) = length (image_names names)
    /\ length (flatdata_ut k) = length (image_names names)
    /\ Forall (fun v => length v = final_len) (flatdata_ut k)
    /\ Forall (fun v => length v = final_len) (flatdata k).
Proof.
  unfold __init__.
  destruct (with_slash path) as [dir|e] eqn:Edir;
    cbn [mbind result_bind rbind]; [|discriminate].
  destruct (read_text fs (dir +:+ "README.txt")) as [text|e] eqn:Etext;
    cbn [mbind result_bind rbind]; [|discriminate].
  destruct (KeemPlot.dbdata (snd (rme_parser text)) group_number)
    as [group|e] eqn:Egroup; cbn [mbind result_bind rbind]; [|discriminate].
  destruct (init_params max_value threshold final_len) as [self|e] eqn:Eself;
    cbn [mbind result_bind rbind]; [|discriminate].
  destruct (_gen_raw_arrays fs dir) as [raw|e] eqn:Eraw;
    cbn [mbind result_bind rbind]; [|discriminate].
  destruct (_process self raw) as [[[[ni flat] ut] bar]|e] eqn:Eout;
    cbn [mbind result_bind rbind]; [|discriminate].
  intros [= <-]. cbn [kp_header kp_dbdata flatdata_ni flatdata flatdata_ut].
  destruct (gen_raw_arrays_length fs dir raw Eraw) as (names & Hnames & Hlen).
  destruct (process_Ok self raw ni flat ut bar Eout)
    as (ps & Eps & -> & -> & -> & _).
  pose proof (Forall2_length _ _ _ Eps) as Hps.
  pose proof (processed_all self raw ps Eps) as Hall.
  assert (_final_len self = final_len) as Hfl.
  { unfold init_params in Eself. destruct (eqb _ _); [discriminate|].
    injection Eself as <-. reflexivity. }
  rewrite Hfl in Hall.
  exists dir, text, names. rewrite !length_map, <- Hps, Hlen.
  repeat split; auto.
  - apply Forall_fmap. eapply Forall_impl; [exact Hall|]. simpl. tauto.
  - apply Forall_fmap. eapply Forall_impl; [exact Hall|]. simpl. tauto.
Qed.



End init.

Lemma init_returns_witness :
  exists dir text names,
    with_slash "data" = Ok dir
    /\ read_text example_files (dir +:+ "README.txt") = Ok text
    /\ ["id"; "sex"; "diet"; "weight"] = fst (rme_parser text)
    /\ KeemPlot.dbdata (snd (rme_parser text)) 1
       = Ok [["A"; "1"; "x"; "10"]; ["A"; "1"; "y"; "20"]]
    /\ listdir example_files dir = Ok names
    /\ 1%nat = length (image_names names).
Proof.
  destruct (__init__ example_files "data" 1 65535%float 39321%float 5)
    as [k|e] eqn:E; [|vm_compute in E; discriminate].
  destruct (init_returns example_files "data" 1 65535%float 39321%float 5 k E)
    as (dir & text & names & H1 & H2 & H3 & H4 & H5 & H6 & _).
  vm_compute in E. injection E as <-.
  exists dir, text, names. repeat split; assumption.
Defined.


End KeemPlotInitProps.
